(** * Export-table synchronisation of nanobox (package [share])

    A shallow embedding of [Exists], [Add], [Remove], [reloadServer] and
    [cleanLine] of package [share] (the second half of the listing
    [util/file/file.go]), together with the fragments of Go's [strings],
    [bytes], [fmt], [flag], [os], [ioutil] and [os/exec] packages those
    functions call.

    Go strings and byte slices are sequences of bytes: they are modelled by
    [string] (a list of [ascii]).  A Go [error] is modelled by
    [option string]: [None] is [nil] and [Some m] is an error whose
    [Error()] text is [m].  Everything outside the process (provider
    lookup, the exports file, the directory tree, the [nfsd] command) is a
    field of the record [World]; the functions of the package thread it in a
    small state monad and record their effects in a trace. *)

From stdpp Require Import base list strings gmap.
From Stdlib Require Import Ascii ZArith DecimalString.

(** ** Go's [strings] package *)

Module strings.

(** [strings.HasPrefix(s, prefix)]. *)
Fixpoint HasPrefix (s prefix : string) {struct prefix} : bool :=
  match prefix, s with
  | EmptyString, _ => true
  | String _ _, EmptyString => false
  | String p prefix', String c s' => if Ascii.eqb c p then HasPrefix s' prefix' else false
  end.

(** [s[n:]]: the string without its first [n] bytes. *)
Fixpoint drop_bytes (n : nat) (s : string) : string :=
  match n, s with
  | O, _ => s
  | S _, EmptyString => EmptyString
  | S n', String _ s' => drop_bytes n' s'
  end.

(** [strings.Cut(s, sep)]: [s] around the leftmost occurrence of [sep]
    ([s[:i]] and [s[i+len(sep):]] for [i = strings.Index(s, sep)]), or
    [None] when [sep] does not occur. *)
Fixpoint Cut (s sep : string) : option (string * string) :=
  if HasPrefix s sep then Some (EmptyString, drop_bytes (String.length sep) s)
  else match s with
       | EmptyString => None
       | String c s' =>
           match Cut s' sep with
           | Some (before, after) => Some (String c before, after)
           | None => None
           end
       end.

(** [strings.Contains(s, substr)], that is [strings.Index(s, substr) >= 0]. *)
Definition Contains (s substr : string) : bool :=
  match Cut s substr with Some _ => true | None => false end.

(** [strings.Replace(s, old, new, 1)]: the leftmost occurrence of [old]
    replaced by [new]; [s] itself when [old] does not occur.  (With an empty
    [old] Go inserts [new] in front of [s], as here.)  The package only
    calls [Replace] with [n = 1]. *)
Definition Replace1 (s old new : string) : string :=
  match Cut s old with
  | Some (before, after) => before +:+ new +:+ after
  | None => s
  end.

(** The loop of [strings.genSplit]: cut at the separator until it no longer
    occurs.  Every cut with a non-empty separator shortens the rest, so
    [String.length s] rounds are enough. *)
Fixpoint Split_loop (fuel : nat) (s sep : string) : list string :=
  match fuel with
  | O => [s]
  | S fuel' =>
      match Cut s sep with
      | Some (before, after) => before :: Split_loop fuel' after sep
      | None => [s]
      end
  end.

(** One string per byte: what [strings.Split] does with an empty
    separator on ASCII text.  The package never splits on an empty
    separator. *)
Fixpoint explode (s : string) : list string :=
  match s with
  | EmptyString => []
  | String c s' => String c EmptyString :: explode s'
  end.

(** [strings.Split(s, sep)]. *)
Definition Split (s sep : string) : list string :=
  match sep with
  | EmptyString => explode s
  | String _ _ => Split_loop (String.length s) s sep
  end.

(** [strings.Join(elems, sep)]. *)
Fixpoint Join (elems : list string) (sep : string) : string :=
  match elems with
  | [] => EmptyString
  | [e] => e
  | e :: rest => e +:+ sep +:+ Join rest sep
  end.

(** [strings.TrimPrefix(s, prefix)]. *)
Definition TrimPrefix (s prefix : string) : string :=
  if HasPrefix s prefix then drop_bytes (String.length prefix) s else s.

(** The loop of [strings.Replace(s, old, "", -1)] for a non-empty [old]:
    the occurrences of [old] are taken out from left to right, each search
    starting after the occurrence before. *)
Fixpoint Delete_loop (fuel : nat) (s old : string) : string :=
  match fuel with
  | O => s
  | S fuel' =>
      match Cut s old with
      | Some (before, after) => before +:+ Delete_loop fuel' after old
      | None => s
      end
  end.

(** [strings.Replace(s, old, "", -1)]: with [old] empty, [old == new] and
    Go returns [s]. *)
Definition Delete_all (s old : string) : string :=
  match old with
  | EmptyString => s
  | String _ _ => Delete_loop (String.length s) s old
  end.

End strings.

(** ** Go's [fmt] verbs used by the package *)

Module fmt.

(** [%v] of an [int]: its decimal representation. *)
Definition int_v (n : Z) : string := NilZero.string_of_int (Z.to_int n).

End fmt.

(** ** The outside world *)

(** A Go [error]. *)
Definition error := option string.

(** What [models.LoadProvider] returns, as far as the package reads it. *)
Record Provider := mkProvider { MountIP : string }.

(** What the package does to the outside world, in order. *)
Inductive Event :=
| EvWriteFile (filename data : string)
| EvCommand (name : string) (args : list string)
| EvLog (level msg : string).

(** The result of running a command with [CombinedOutput]. *)
Record Output := mkOutput { combined : string; exit_err : error }.

Record World := mkWorld {
  (** [models.LoadProvider()]: the provider, or the error. *)
  provider : Provider + string;
  (** [uid()] and [gid()] of the package (declared in a file that is not
      part of the sources at hand): the numeric identity of the user. *)
  getuid : Z;
  getgid : Z;
  (** [ioutil.ReadFile(EXPORTSFILE)] now: the content, or the error. *)
  exports : string + string;
  (** What [ioutil.WriteFile(EXPORTSFILE, ...)] answers. *)
  write_error : error;
  (** What a read of the exports file gives after a write of the given
      text that failed: the file may be as it was, empty or cut short. *)
  failed_write : string -> string + string;
  (** [os.Stat(path)] of a non-empty path: [IsDir()] of the file info, or
      the error. *)
  stat : string -> bool + string;
  (** [flag.Lookup("test.v") != nil]: the process is a test binary. *)
  testing : bool;
  (** The outcome of a command, which may depend on all that happened
      before. *)
  run : list Event -> string -> list string -> Output;
  (** The effects so far, oldest first. *)
  trace : list Event
}.

(** The state monad over [World]. *)
Definition M (A : Type) : Type := World -> A * World.

#[global] Instance M_ret : MRet M := fun A (a : A) w => (a, w).

#[global] Instance M_bind : MBind M :=
  fun A B (k : A -> M B) (m : M A) w => let (a, w') := m w in k a w'.

(** The world after one more effect. *)
Definition record (e : Event) (w : World) : World :=
  mkWorld (provider w) (getuid w) (getgid w) (exports w) (write_error w)
          (failed_write w) (stat w) (testing w) (run w) (trace w ++ [e]).

(** The world in which the exports file holds [data]. *)
Definition store (data : string) (w : World) : World :=
  mkWorld (provider w) (getuid w) (getgid w) (inl data) (write_error w)
          (failed_write w) (stat w) (testing w) (run w) (trace w).

(** The world after a write of [data] that failed. *)
Definition spoil (data : string) (w : World) : World :=
  mkWorld (provider w) (getuid w) (getgid w) (failed_write w data)
          (write_error w) (failed_write w) (stat w) (testing w) (run w)
          (trace w).

(** Reading the world. *)
Definition gets {A} (f : World -> A) : M A := fun w => (f w, w).

Definition emit (e : Event) : M unit := fun w => (tt, record e w).

(** [EXPORTSFILE]. *)
Definition EXPORTSFILE : string := "/etc/exports".

Module models.
Definition LoadProvider : M (Provider + string) := gets provider.
End models.

Module ioutil.

Definition ReadFile : M (string + string) := gets exports.

(** [ioutil.WriteFile(EXPORTSFILE, data, 0644)]: on success the file holds
    [data] from then on; a write that fails (the file is created or
    truncated before the bytes are written) leaves what [failed_write]
    says. *)
Definition WriteFile (data : string) : M error :=
  fun w =>
    let w' := record (EvWriteFile EXPORTSFILE data) w in
    match write_error w with
    | Some e => (Some e, spoil data w')
    | None => (None, store data w')
    end.

End ioutil.

Module os.

(** [os.Stat(path)] followed by [IsDir()].  The empty path names no file:
    [stat(2)] fails with [ENOENT] on it. *)
Definition Stat (w : World) (path : string) : bool + string :=
  match path with
  | EmptyString => inr "stat : no such file or directory"
  | String _ _ => stat w path
  end.

End os.

Module exec.

(** [exec.Command(name, args...).CombinedOutput()]. *)
Definition CombinedOutput (name : string) (args : list string) : M Output :=
  fun w => (run w (trace w) name args, record (EvCommand name args) w).

End exec.

Module lumber.
Definition Error (msg : string) : M unit := emit (EvLog "error" msg).
Definition Debug (msg : string) : M unit := emit (EvLog "debug" msg).
End lumber.

Module bytes.
(** [bytes.Contains(b, subslice)]. *)
Definition Contains (b subslice : string) : bool := strings.Contains b subslice.
End bytes.

Module flag.
(** [flag.Lookup("test.v") != nil]. *)
Definition Lookup_test_v : M bool := gets testing.
End flag.

(** The line separator ["\n"]. *)
Definition newline : string := String "010"%char EmptyString.

(** ** Package [share] *)

Module share.

(** Modelled from the spec: [uid()] and [gid()] are declared in a file of
    the package that is not among the sources; the spec's MountSelector has
    them as integers, here the world's [getuid] and [getgid]. *)
Definition uid : M Z := gets getuid.
Definition gid : M Z := gets getgid.

(** [fmt.Sprintf("%s -alldirs -mapall=%v:%v", mountIP, uid, gid)]. *)
Definition render_lineCheck (mountIP : string) (uid gid : Z) : string :=
  mountIP +:+ " -alldirs -mapall=" +:+ fmt.int_v uid +:+ ":" +:+ fmt.int_v gid.

(** [fmt.Sprintf("%s %s", a, b)]. *)
Definition sprintf_s_s (a b : string) : string := a +:+ " " +:+ b.

Definition Exists (path : string) : M bool :=
  r ← ioutil.ReadFile;
  match r with
  | inr _ => mret false
  | inl b => mret (bytes.Contains b (path +:+ " "))
  end.

(** The loop of [cleanLine]: the paths that [os.Stat] finds and that are
    directories, in order. *)
Fixpoint goodPaths (w : World) (paths : list string) : list string :=
  match paths with
  | [] => []
  | path :: rest =>
      match os.Stat w path with
      | inl true => path :: goodPaths w rest
      | _ => goodPaths w rest
      end
  end.

(** The tokens [cleanLine] looks at. *)
Definition linePaths (line lineCheck : string) : list string :=
  strings.Split (strings.Replace1 line lineCheck "") " ".

(** [cleanLine] only reads the world (through [os.Stat]): the world is its
    first argument. *)
Definition cleanLine (w : World) (line lineCheck : string) : string :=
  sprintf_s_s (strings.Join (goodPaths w (linePaths line lineCheck)) " ") lineCheck.

(** [reloadServer] reloads the nfs server with the new export
    configuration. *)
Definition reloadServer : M error :=
  t ← flag.Lookup_test_v;
  if t : bool then mret None else
  o ← exec.CombinedOutput "nfsd" ["enable"];
  match exit_err o with
  | Some err =>
      lumber.Debug ("enable nfs: " +:+ combined o);;
      mret (Some ("enable nfs: " +:+ combined o +:+ " " +:+ err))
  | None =>
  o ← exec.CombinedOutput "nfsd" ["checkexports"];
  match exit_err o with
  | Some err =>
      lumber.Debug ("checkexports: " +:+ combined o);;
      mret (Some ("checkexports: " +:+ combined o +:+ " " +:+ err))
  | None =>
  o ← exec.CombinedOutput "nfsd" ["update"];
  match exit_err o with
  | Some err =>
      lumber.Debug ("update: " +:+ combined o);;
      mret (Some ("update: " +:+ combined o +:+ " " +:+ err))
  | None => mret None
  end end end.

(** The loop of [Add] over [lines]: the first line that contains
    [lineCheck] gets [path] in front and is cleaned, and the loop stops.
    Returns [found] and the lines. *)
Fixpoint Add_loop (w : World) (path lineCheck : string) (lines : list string)
  : bool * list string :=
  match lines with
  | [] => (false, [])
  | line :: rest =>
      if strings.Contains line lineCheck then
        (true, cleanLine w (sprintf_s_s path line) lineCheck :: rest)
      else
        let (found, rest') := Add_loop w path lineCheck rest in
        (found, line :: rest')
  end.

(** The lines [Add] saves. *)
Definition Add_lines (w : World) (path lineCheck : string) (lines : list string)
  : list string :=
  let (found, lines') := Add_loop w path lineCheck lines in
  if found then lines' else lines' ++ [sprintf_s_s path lineCheck].

Definition Add (path : string) : M error :=
  r ← models.LoadProvider;
  match r with
  | inr err => mret (Some err)
  | inl provider =>
  r ← ioutil.ReadFile;
  let existingFile := match r with inl b => b | inr _ => "" end in
  u ← uid; g ← gid;
  let lineCheck := render_lineCheck (MountIP provider) u g in
  let lines := strings.Split existingFile newline in
  lines ← gets (fun w => Add_lines w path lineCheck lines);
  err ← ioutil.WriteFile (strings.Join lines newline);
  match err with
  | Some err => mret (Some err)
  | None => reloadServer
  end
  end.

(** The loop of [Remove]: [existingLines] still to visit, [newLines]
    collected so far. *)
Fixpoint Remove_loop (w : World) (path lineCheck : string)
    (existingLines newLines : list string) : list string :=
  match existingLines with
  | [] => newLines
  | line :: rest =>
      if negb (strings.Contains line lineCheck) then
        Remove_loop w path lineCheck rest (newLines ++ [line])
      else
        let line := strings.Replace1 line (path +:+ " ") "" in
        if bool_decide (line <> lineCheck) then
          Remove_loop w path lineCheck rest (newLines ++ [cleanLine w line lineCheck])
        else
          Remove_loop w path lineCheck rest newLines
  end.

Definition Remove (path : string) : M error :=
  r ← models.LoadProvider;
  match r with
  | inr err => mret (Some err)
  | inl provider =>
  r ← ioutil.ReadFile;
  match r with
  | inr err =>
      lumber.Error ("failed to read etc/exports: " +:+ err);;
      mret None
  | inl existingFile =>
  u ← uid; g ← gid;
  let lineCheck := render_lineCheck (MountIP provider) u g in
  let existingLines := strings.Split existingFile newline in
  newLines ← gets (fun w => Remove_loop w path lineCheck existingLines []);
  err ← ioutil.WriteFile (strings.Join newLines newline);
  match err with
  | Some err => mret (Some err)
  | None => reloadServer
  end
  end end.

End share.

(** ** Package [file]: [Tar] *)

Module file.

(** What [Tar] reads of an [os.FileInfo]. *)
Record FileInfo := mkFileInfo {
  IsRegular : bool;   (** [fi.Mode().IsRegular()] *)
  Mode : Z;           (** [int64(fi.Mode())] *)
  Size : Z            (** [fi.Size()] *)
}.

(** The fields [Tar] sets of a [tar.Header]. *)
Record Header := mkHeader { Name : string; HMode : Z; HSize : Z }.

(** What [Tar] does to the archive, in order: the calls of
    [tw.WriteHeader], the calls of [io.Copy(tw, f)] with the bytes of the
    file, and the deferred closes. *)
Inductive Event :=
| EvWriteHeader (h : Header)
| EvCopy (file data : string)
| EvClose (writer : string).

(** One call of the walk function by [filepath.Walk]: the path, its file
    info and the error of reaching it. *)
Record Visit := mkVisit { v_file : string; v_info : FileInfo; v_err : error }.

Record World := mkWorld {
  (** The calls [filepath.Walk(src, ...)] makes as long as the walk
      function returns [nil]. *)
  visits : list Visit;
  (** What [tw.WriteHeader] answers, given what was done to the archive
      before. *)
  header_result : list Event -> Header -> error;
  (** [os.Open(file)] and the bytes read from it, or the error. *)
  open_result : string -> string + string;
  (** What [io.Copy(tw, f)] answers. *)
  copy_result : list Event -> string -> error;
  (** What was done to the archive so far, oldest first. *)
  archive : list Event
}.

Definition record (e : Event) (w : World) : World :=
  mkWorld (visits w) (header_result w) (open_result w) (copy_result w)
          (archive w ++ [e]).

(** The name [Tar] gives to the entry of [file]:
    [strings.TrimPrefix(strings.Replace(file, src, "", -1), "/")]. *)
Definition entry_name (file src : string) : string :=
  strings.TrimPrefix (strings.Delete_all file src) "/".

(** The function [Tar] hands to [filepath.Walk].  (The deferred
    [f.Close()] has no effect on the archive.) *)
Definition walkFn (src : string) (v : Visit) (w : World) : error * World :=
  match v_err v with
  | Some err => (Some err, w)
  | None =>
      if IsRegular (v_info v) then
        let header :=
          mkHeader (entry_name (v_file v) src) (Mode (v_info v)) (Size (v_info v)) in
        let w1 := record (EvWriteHeader header) w in
        match header_result w (archive w) header with
        | Some err => (Some err, w1)
        | None =>
            match open_result w (v_file v) with
            | inr err => (Some err, w1)
            | inl data =>
                let w2 := record (EvCopy (v_file v) data) w1 in
                match copy_result w (archive w1) (v_file v) with
                | Some err => (Some err, w2)
                | None => (None, w2)
                end
            end
        end
      else (None, w)
  end.

(** [filepath.Walk]: the walk function is called visit after visit until
    it returns an error, which is the result.  (The walk function of
    [Tar] never returns [filepath.SkipDir].) *)
Fixpoint Walk (fn : Visit -> World -> error * World) (vs : list Visit)
    (w : World) : error * World :=
  match vs with
  | [] => (None, w)
  | v :: rest =>
      match fn v w with
      | (Some err, w') => (Some err, w')
      | (None, w') => Walk fn rest w'
      end
  end.

(** [Tar(src, writers...)]: the walk, then the deferred [tw.Close()] and
    [gzw.Close()], whose errors are dropped. *)
Definition Tar (src : string) (w : World) : error * World :=
  let (err, w') := Walk (walkFn src) (visits w) w in
  (err, record (EvClose "gzip") (record (EvClose "tar") w')).

End file.

(** ** Package [commands] *)

Module commands.

(** A value handed to [registry.Set]. *)
Inductive Value := VBool (b : bool) | VString (s : string).

(** What the commands do besides changing the package variables, in
    order. *)
Inductive Event :=
| EvPrint (text : string)                          (** [fmt.Printf], [fmt.Println] *)
| EvRun (name : string) (meta : gmap string string) (** [processor.Run(name, ...)] *)
| EvOutputCommandErr (err : error)                 (** [print.OutputCommandErr] *)
| EvHandleError (err : error)                      (** [handleError] *)
| EvReport (command : string)                      (** [mixpanel.Report] *)
| EvUpdateCheck                                    (** [update.Check] *)
| EvRegistrySet (key : string) (v : Value)         (** [registry.Set] *)
| EvFileLogger (dir name : string)                 (** [lumber.NewAppendLogger] on [dir]/[name] *)
| EvLumberLevel (level : string).                  (** [lumber.Level], on a logger that takes it *)

Record World := mkWorld {
  (** The map [Meta] of [processor.DefaultControl] ([processor.DefaultConfig]
      in the tunnel and console commands). *)
  Meta : gmap string string;
  (** The flag variables. *)
  message : string;          (** [deployCmdFlags.message] *)
  app : string;
  port : string;
  debugMode : bool;
  displayDebugMode : bool;
  displayTraceMode : bool;
  internalCommand : bool;
  endpoint : string;
  (** [display.Summary] and [display.Level]. *)
  Summary : bool;
  Level : string;
  (** [config.GlobalDir()]. *)
  GlobalDir : string;
  (** What [processor.Run] returns for a processor name and a [Meta]. *)
  run_result : string -> gmap string string -> error;
  (** The error of [lumber.NewAppendLogger] for the file [name] of the
      directory [dir]; with an error the logger it returns is nil. *)
  append_logger_result : string -> string -> error;
  (** Whether the default logger of [lumber] is a nil [*FileLogger]. *)
  logger_nil : bool;
  (** The effects so far, oldest first. *)
  log : list Event
}.

Definition emit (e : Event) (w : World) : World :=
  mkWorld (Meta w) (message w) (app w) (port w) (debugMode w)
          (displayDebugMode w) (displayTraceMode w) (internalCommand w)
          (endpoint w) (Summary w) (Level w) (GlobalDir w) (run_result w)
          (append_logger_result w) (logger_nil w) (log w ++ [e]).

(** [Meta[key] = value]. *)
Definition set_meta (key value : string) (w : World) : World :=
  mkWorld (<[key := value]> (Meta w)) (message w) (app w) (port w)
          (debugMode w) (displayDebugMode w) (displayTraceMode w)
          (internalCommand w) (endpoint w) (Summary w) (Level w)
          (GlobalDir w) (run_result w) (append_logger_result w)
          (logger_nil w) (log w).

(** [display.Summary = false; display.Level = level]. *)
Definition set_display (level : string) (w : World) : World :=
  mkWorld (Meta w) (message w) (app w) (port w) (debugMode w)
          (displayDebugMode w) (displayTraceMode w) (internalCommand w)
          (endpoint w) false level (GlobalDir w) (run_result w)
          (append_logger_result w) (logger_nil w) (log w).

(** [processor.Run(name, control)]: the run sees [Meta] as it is now. *)
Definition processor_Run (name : string) (w : World) : error * World :=
  (run_result w name (Meta w), emit (EvRun name (Meta w)) w).

(** The text [deployFn] prints for [n] arguments. *)
Definition wrong_number (n : nat) : string :=
  newline +:+ "Wrong number of arguments (expecting 1 got "
  +:+ fmt.int_v (Z.of_nat n)
  +:+ "). Run the command again with the" +:+ newline
  +:+ "name of the app you wish to deploy to:" +:+ newline +:+ newline
  +:+ "ex: nanobox deploy <name>" +:+ newline +:+ newline.

(** [deployFn(ccmd, args)]. *)
Definition deployFn (args : list string) (w : World) : World :=
  let continue (w : World) : World :=
    let w := set_meta "message" (message w) w in
    let (err, w) := processor_Run "deploy" w in
    emit (EvOutputCommandErr err) w in
  match args with
  | [] => continue (set_meta "app" "default" w)
  | [a] => continue (set_meta "app" a w)
  | _ => emit (EvPrint (wrong_number (length args))) w
  end.

(** The [Run] function of [TunnelCmd]. *)
Definition tunnelRun (args : list string) (w : World) : World :=
  match args with
  | [a] =>
      let w := set_meta "alias" (app w) w in
      let w := set_meta "container" a w in
      let w := set_meta "port" (port w) w in
      let (err, w) := processor_Run "tunnel" w in
      emit (EvHandleError err) w
  | _ => emit (EvPrint ("i need a container to run in" +:+ newline)) w
  end.

(** The [Run] function of [ConsoleCmd]. *)
Definition consoleRun (args : list string) (w : World) : World :=
  match args with
  | [a] =>
      let w := set_meta "alias" (app w) w in
      let w := set_meta "container" a w in
      let (err, w) := processor_Run "console" w in
      emit (EvHandleError err) w
  | _ => emit (EvPrint ("I need a component to run in" +:+ newline)) w
  end.

(** How a function ends: it returns, or it panics on a nil pointer; the
    world is the one it leaves. *)
Inductive Outcome := Returned (w : World) | Panicked (w : World).

Definition final (o : Outcome) : World :=
  match o with Returned w | Panicked w => w end.

Definition panics (o : Outcome) : bool :=
  match o with Returned _ => false | Panicked _ => true end.

(** The rest [k] of a function runs only if what came before returned. *)
Definition and_then (o : Outcome) (k : World -> Outcome) : Outcome :=
  match o with Returned w => k w | Panicked w => Panicked w end.

(** [fileLogger, _ := lumber.NewAppendLogger(dir/name)] followed by
    [lumber.SetLogger(fileLogger)]: the error is dropped, and the logger,
    nil if there was one, becomes the default logger. *)
Definition set_append_logger (dir name : string) (w : World) : World :=
  let w := emit (EvFileLogger dir name) w in
  mkWorld (Meta w) (message w) (app w) (port w) (debugMode w)
          (displayDebugMode w) (displayTraceMode w) (internalCommand w)
          (endpoint w) (Summary w) (Level w) (GlobalDir w) (run_result w)
          (append_logger_result w)
          (match append_logger_result w dir name with
           | None => false
           | Some _ => true
           end)
          (log w).

(** [lumber.Level(level)] is [stdLog.SetLevel(level)], and [SetLevel] of a
    [*FileLogger] writes a field of its receiver: on a nil one it panics. *)
Definition lumber_Level (level : string) (w : World) : Outcome :=
  if logger_nil w then Panicked w
  else Returned (emit (EvLumberLevel level) w).

(** The [PersistentPreRun] function of [NanoboxCmd], for a command whose
    [CommandPath()] is [commandPath]. *)
Definition PersistentPreRun (commandPath : string) (w : World) : Outcome :=
  let w := emit (EvReport (strings.Replace1 commandPath "nanobox " "")) w in
  let w := emit EvUpdateCheck w in
  let w :=
    if internalCommand w then
      let w := emit (EvRegistrySet "internal" (VBool (internalCommand w))) w in
      set_append_logger (GlobalDir w) "nanobox.log" w
    else w in
  let w :=
    if negb (String.eqb (endpoint w) "") then
      emit (EvRegistrySet "endpoint" (VString (endpoint w))) w
    else w in
  let w := emit (EvRegistrySet "debug" (VBool (debugMode w))) w in
  and_then
    (if displayDebugMode w then
       and_then (lumber_Level "DEBUG" w)
                (fun w => Returned (set_display "debug" w))
     else Returned w)
    (fun w =>
       if displayTraceMode w then
         and_then (lumber_Level "TRACE" w)
                  (fun w => Returned (set_display "trace" w))
       else Returned w).

End commands.

(** ** Specification vocabulary *)

(** [sub] occurs in [s] as a contiguous run of bytes. *)
Definition occurs_in (sub s : string) : Prop :=
  exists before after : string, s = before +:+ sub +:+ after.

(** The [lineCheck] that [Add] and [Remove] render in world [w] for
    provider [p]. *)
Definition lineCheck_of (p : Provider) (w : World) : string :=
  share.render_lineCheck (MountIP p) (getuid w) (getgid w).

(** What [Add] takes the exports file to hold: nothing when it cannot be
    read. *)
Definition existing (w : World) : string :=
  match exports w with inl b => b | inr _ => "" end.

(** The text [Add] hands to [ioutil.WriteFile]. *)
Definition Add_data (w : World) (p : Provider) (path : string) : string :=
  strings.Join
    (share.Add_lines w path (lineCheck_of p w) (strings.Split (existing w) newline))
    newline.

(** The text [Remove] hands to [ioutil.WriteFile] when the file holds
    [content]. *)
Definition Remove_data (w : World) (p : Provider) (path content : string)
  : string :=
  strings.Join
    (share.Remove_loop w path (lineCheck_of p w) (strings.Split content newline) [])
    newline.

(** The end of an operation that hands [data] to [ioutil.WriteFile]: the
    write error, or the reload. *)
Definition save_and_reload (data : string) (w : World) : error * World :=
  let w' := record (EvWriteFile EXPORTSFILE data) w in
  match write_error w with
  | Some e => (Some e, spoil data w')
  | None => share.reloadServer (store data w')
  end.

(** Two worlds that differ at most in the exports file and in the trace. *)
Definition same_env (w w' : World) : Prop :=
  provider w' = provider w /\ getuid w' = getuid w /\ getgid w' = getgid w /\
  write_error w' = write_error w /\ stat w' = stat w /\
  testing w' = testing w /\ run w' = run w /\
  failed_write w' = failed_write w.

(** The three steps of the reload, as trace events. *)
Definition step_enable : Event := EvCommand "nfsd" ["enable"].
Definition step_check : Event := EvCommand "nfsd" ["checkexports"].
Definition step_update : Event := EvCommand "nfsd" ["update"].

(** The worlds after the first and the second step, and what each step
    answers when it is run from world [w]. *)
Definition after_enable (w : World) : World := record step_enable w.
Definition after_check (w : World) : World := record step_check (after_enable w).
Definition after_update (w : World) : World := record step_update (after_check w).
Definition enable_out (w : World) : Output :=
  run w (trace w) "nfsd" ["enable"].
Definition check_out (w : World) : Output :=
  run w (trace (after_enable w)) "nfsd" ["checkexports"].
Definition update_out (w : World) : Output :=
  run w (trace (after_check w)) "nfsd" ["update"].

(** The error [reloadServer] builds for a failed step. *)
Definition step_error (step : string) (o : Output) (err : string) : string :=
  step +:+ ": " +:+ combined o +:+ " " +:+ err.

(** A world in which the exports file is the only thing that matters:
    provider 10.0.2.2, user 501:20, the given file and directories, a
    writable file, a test binary. *)
Definition world_of (content : string + string) (dirs : list string) (g : Z)
  : World :=
  mkWorld (inl (mkProvider "10.0.2.2")) 501 g content None (fun _ => inl "")
          (fun p => if bool_decide (p ∈ dirs) then inl true
                    else inr "no such file or directory")
          true (fun _ _ _ => mkOutput "" None) [].

(** A world outside of tests in which [nfsd checkexports] fails and the
    other steps succeed. *)
Definition world_check_fails : World :=
  mkWorld (inl (mkProvider "10.0.2.2")) 501 20 (inl "") None (fun _ => inl "")
          (fun _ => inr "no such file or directory") false
          (fun _ _ args =>
             if bool_decide (args = ["checkexports"])
             then mkOutput "exports:1: unknown option" (Some "exit status 1")
             else mkOutput "" None)
          [].

(** A world in which the exports file cannot be read. *)
Definition world_unreadable : World :=
  world_of (inr "open /etc/exports: no such file or directory") [] 20.

(** The selector line of the scenarios. *)
Definition rule_501_20 : string := "10.0.2.2 -alldirs -mapall=501:20".

(** A file with a line for another address and a line for 10.0.2.2. *)
Definition two_rules : string :=
  "/x 10.0.2.9 -alldirs -mapall=501:20" +:+ newline +:+ "/a " +:+ rule_501_20.

(** A world in which the provider cannot be loaded. *)
Definition world_no_provider : World :=
  mkWorld (inr "provider not found") 501 20 (inl ("/srv/app " +:+ rule_501_20))
          None (fun _ => inl "") (fun _ => inl true) false
          (fun _ _ _ => mkOutput "" None) [].

(** A world in which the exports file can be read but not written. *)
Definition world_read_only : World :=
  mkWorld (inl (mkProvider "10.0.2.2")) 501 20 (inl ("/srv/app " +:+ rule_501_20))
          (Some "open /etc/exports: permission denied") (fun _ => inl "")
          (fun _ => inl true) false (fun _ _ _ => mkOutput "" None) [].

(** An event that is the run of a command. *)
Definition is_command (e : Event) : bool :=
  match e with EvCommand _ _ => true | _ => false end.

(** The lines of [lines] that contain [lineCheck], and the others. *)
Definition matching (lineCheck : string) (lines : list string) : list string :=
  filter (fun l => strings.Contains l lineCheck = true) lines.
Definition others (lineCheck : string) (lines : list string) : list string :=
  filter (fun l => strings.Contains l lineCheck = false) lines.

(** The line [cleanLine] renders for the paths [paths]:
    ["<paths joined by spaces> <lineCheck>"]. *)
Definition render_line (paths : list string) (lineCheck : string) : string :=
  strings.Join paths " " +:+ " " +:+ lineCheck.

(** [t] holds no space: it is one token of a line. *)
Definition no_space (t : string) : bool := negb (strings.Contains t " ").

(** The leftmost occurrence of [sub] in [s] is the end of [s]: [sub] occurs
    in [s] at its end and nowhere before. *)
Definition last_only (sub s : string) : bool :=
  match strings.Cut s sub with
  | Some (_, EmptyString) => true
  | _ => false
  end.

(** [t] ends with [suffix]. *)
Fixpoint ends_with (suffix t : string) : bool :=
  if String.eqb t suffix then true
  else match t with
       | EmptyString => false
       | String _ t' => ends_with suffix t'
       end.

(** The tokens of a line, each followed by a space. *)
Fixpoint spaced (paths : list string) : string :=
  match paths with
  | [] => EmptyString
  | t :: rest => t +:+ " " +:+ spaced rest
  end.

(** The header [Tar] writes for the file of a visit. *)
Definition header_of (src : string) (v : file.Visit) : file.Header :=
  file.mkHeader (file.entry_name (file.v_file v) src)
    (file.Mode (file.v_info v)) (file.Size (file.v_info v)).

(** Visit [v], met when [tr] has been done to the archive, goes well and
    adds [evs] to the archive: it carries no error, and either it is not a
    regular file and nothing is added, or its header is written without
    error, the file is opened, and its bytes are copied without error. *)
Definition passes (src : string) (w : file.World) (tr : list file.Event)
    (v : file.Visit) (evs : list file.Event) : Prop :=
  file.v_err v = None /\
  ((file.IsRegular (file.v_info v) = false /\ evs = []) \/
   (file.IsRegular (file.v_info v) = true /\
    file.header_result w tr (header_of src v) = None /\
    exists data : string,
      file.open_result w (file.v_file v) = inl data /\
      file.copy_result w (tr ++ [file.EvWriteHeader (header_of src v)])
        (file.v_file v) = None /\
      evs = [file.EvWriteHeader (header_of src v);
             file.EvCopy (file.v_file v) data])).

(** The visits [vs], met one after the other from [tr] on, all go well and
    add [evs] to the archive. *)
Inductive all_pass (src : string) (w : file.World)
  : list file.Event -> list file.Visit -> list file.Event -> Prop :=
| all_pass_nil (tr : list file.Event) : all_pass src w tr [] []
| all_pass_cons (tr : list file.Event) (v : file.Visit) (vs : list file.Visit)
    (e1 es : list file.Event) :
    passes src w tr v e1 -> all_pass src w (tr ++ e1) vs es ->
    all_pass src w tr (v :: vs) (e1 ++ es).

(** Visit [v], met when [tr] has been done to the archive, fails with [e]
    after adding [evs] to the archive: it carries the error [e] and
    nothing is added; or it is a regular file and writing its header fails
    with [e], or the header is written and opening the file fails with
    [e], or the file is opened and copying its bytes fails with [e]. *)
Definition fails_at (src : string) (w : file.World) (tr : list file.Event)
    (v : file.Visit) (e : string) (evs : list file.Event) : Prop :=
  (file.v_err v = Some e /\ evs = []) \/
  (file.v_err v = None /\ file.IsRegular (file.v_info v) = true /\
   ((file.header_result w tr (header_of src v) = Some e /\
     evs = [file.EvWriteHeader (header_of src v)]) \/
    (file.header_result w tr (header_of src v) = None /\
     file.open_result w (file.v_file v) = inr e /\
     evs = [file.EvWriteHeader (header_of src v)]) \/
    (file.header_result w tr (header_of src v) = None /\
     exists data : string,
       file.open_result w (file.v_file v) = inl data /\
       file.copy_result w (tr ++ [file.EvWriteHeader (header_of src v)])
         (file.v_file v) = Some e /\
       evs = [file.EvWriteHeader (header_of src v);
              file.EvCopy (file.v_file v) data]))).

(** The two deferred closes of [Tar]. *)
Definition closes : list file.Event :=
  [file.EvClose "tar"; file.EvClose "gzip"].

(** A walk over a directory, a file in it and a file that cannot be
    opened; headers and copies succeed. *)
Definition tar_world : file.World :=
  file.mkWorld
    [file.mkVisit "app" (file.mkFileInfo false 2147484141 96) None;
     file.mkVisit "app/main.go" (file.mkFileInfo true 420 5) None;
     file.mkVisit "app/secret" (file.mkFileInfo true 384 7) None]
    (fun _ _ => None)
    (fun f => if bool_decide (f = "app/main.go") then inl "hello"
              else inr "open app/secret: permission denied")
    (fun _ _ => None)
    [].

(** A walk over a directory and a file in it; nothing fails. *)
Definition tar_world_ok : file.World :=
  file.mkWorld
    [file.mkVisit "app" (file.mkFileInfo false 2147484141 96) None;
     file.mkVisit "app/main.go" (file.mkFileInfo true 420 5) None]
    (fun _ _ => None) (fun _ => inl "hello") (fun _ _ => None) [].

(** Two worlds of [Tar] that differ at most in the archive. *)
Definition same_files (w w' : file.World) : Prop :=
  file.visits w' = file.visits w /\
  file.header_result w' = file.header_result w /\
  file.open_result w' = file.open_result w /\
  file.copy_result w' = file.copy_result w.

(** The calls of [registry.Set] among the events, in order. *)
Definition registry_sets (l : list commands.Event)
  : list (string * commands.Value) :=
  flat_map (fun e => match e with
                     | commands.EvRegistrySet k v => [(k, v)]
                     | _ => []
                     end) l.

(** The levels that [lumber.Level] set among the events, in order. *)
Definition lumber_levels (l : list commands.Event) : list string :=
  flat_map (fun e => match e with
                     | commands.EvLumberLevel level => [level]
                     | _ => []
                     end) l.

(** The default logger that [PersistentPreRun] leaves is nil: for an
    internal command if the append logger could not be made, otherwise if
    it was nil before. *)
Definition nil_logger (w : commands.World) : bool :=
  if commands.internalCommand w then
    match commands.append_logger_result w (commands.GlobalDir w) "nanobox.log" with
    | None => false
    | Some _ => true
    end
  else commands.logger_nil w.

(** An internal command with the verbose flag, where the log file of the
    global directory cannot be opened. *)
Definition world_no_log_file : commands.World :=
  commands.mkWorld ∅ "" "" "" false true false true "" true "info"
    "/home/me/.nanobox" (fun _ _ => None)
    (fun _ _ => Some "open /home/me/.nanobox/nanobox.log: permission denied")
    false [].

(** The runs of a processor among the events, in order. *)
Definition processor_runs (l : list commands.Event) : list string :=
  flat_map (fun e => match e with
                     | commands.EvRun name _ => [name]
                     | _ => []
                     end) l.

(** * Facts about the string functions *)

Section StringFacts.

Lemma string_app_nil_l (s : string) : "" +:+ s = s.
Proof. reflexivity. Qed.

Lemma string_app_cons (c : ascii) (s t : string) : String c s +:+ t = String c (s +:+ t).
Proof. reflexivity. Qed.

Lemma string_app_nil_r (s : string) : s +:+ "" = s.
Proof. induction s as [|c s IH]; [reflexivity|]. rewrite string_app_cons, IH. reflexivity. Qed.

Lemma string_app_assoc (s t u : string) : (s +:+ t) +:+ u = s +:+ t +:+ u.
Proof.
  induction s as [|c s IH]; [reflexivity|].
  rewrite !string_app_cons, IH. reflexivity.
Qed.

Lemma string_app_eq_nil (s t : string) : s +:+ t = "" -> s = "" /\ t = "".
Proof. destruct s; [rewrite string_app_nil_l; auto | rewrite string_app_cons; discriminate]. Qed.

Lemma string_length_app (s t : string) :
  String.length (s +:+ t) = (String.length s + String.length t)%nat.
Proof.
  induction s as [|c s IH]; [reflexivity|].
  rewrite string_app_cons. simpl. rewrite IH. reflexivity.
Qed.

Lemma HasPrefix_app (p r : string) : strings.HasPrefix (p +:+ r) p = true.
Proof.
  induction p as [|c p IH]; [reflexivity|].
  rewrite string_app_cons. simpl. rewrite Ascii.eqb_refl. exact IH.
Qed.

Lemma drop_bytes_app (p r : string) : strings.drop_bytes (String.length p) (p +:+ r) = r.
Proof. induction p as [|c p IH]; [reflexivity|]. rewrite string_app_cons. exact IH. Qed.

Lemma HasPrefix_true (s p : string) :
  strings.HasPrefix s p = true -> s = p +:+ strings.drop_bytes (String.length p) s.
Proof.
  revert s. induction p as [|c p IH]; intros s H; [reflexivity|].
  destruct s as [|d s]; [discriminate|]. simpl in H.
  destruct (Ascii.eqb_spec d c) as [->|]; [|discriminate].
  rewrite string_app_cons. simpl. f_equal. apply IH, H.
Qed.

Lemma HasPrefix_false (s p r : string) :
  strings.HasPrefix s p = false -> s <> p +:+ r.
Proof. intros H ->. rewrite HasPrefix_app in H. discriminate. Qed.

Lemma Cut_prefix (p r : string) : strings.Cut (p +:+ r) p = Some ("", r).
Proof.
  destruct (p +:+ r) eqn:E; simpl; rewrite <- E, HasPrefix_app, drop_bytes_app;
    reflexivity.
Qed.

Lemma Cut_Some (s sep before after : string) :
  strings.Cut s sep = Some (before, after) -> s = before +:+ sep +:+ after.
Proof.
  revert before. induction s as [|c s IH]; intros before; simpl.
  - destruct (strings.HasPrefix "" sep) eqn:P; [|discriminate].
    intros [= <- <-]. apply HasPrefix_true in P. exact P.
  - destruct (strings.HasPrefix (String c s) sep) eqn:P.
    + intros [= <- <-]. apply HasPrefix_true in P. exact P.
    + destruct (strings.Cut s sep) as [[b a]|]; [|discriminate].
      intros [= <- <-]. rewrite string_app_cons. f_equal. apply IH. reflexivity.
Qed.

Lemma Cut_None (s sep : string) :
  strings.Cut s sep = None -> ~ occurs_in sep s.
Proof.
  induction s as [|c s IH]; simpl.
  - destruct (strings.HasPrefix "" sep) eqn:P; [discriminate|].
    intros _ (b & a & E). symmetry in E.
    apply string_app_eq_nil in E as [-> E]. apply string_app_eq_nil in E as [-> _].
    discriminate.
  - destruct (strings.HasPrefix (String c s) sep) eqn:P; [discriminate|].
    destruct (strings.Cut s sep) as [[b a]|] eqn:C; [discriminate|].
    intros _ (b & a & E). destruct b as [|d b].
    + rewrite string_app_nil_l in E. eapply HasPrefix_false; eassumption.
    + rewrite string_app_cons in E. injection E as -> E.
      apply IH; [reflexivity|]. exists b, a. exact E.
Qed.

(** [strings.Cut] cuts at the leftmost occurrence. *)
Lemma Cut_leftmost (s sep before after before' after' : string) :
  strings.Cut s sep = Some (before, after) ->
  s = before' +:+ sep +:+ after' ->
  (String.length before <= String.length before')%nat.
Proof.
  revert before before'. induction s as [|c s IH]; intros b b'; simpl.
  - destruct (strings.HasPrefix "" sep); [|discriminate].
    intros [= <- <-] _. simpl. lia.
  - destruct (strings.HasPrefix (String c s) sep) eqn:P.
    + intros [= <- <-] _. simpl. lia.
    + destruct (strings.Cut s sep) as [[b0 a0]|]; [|discriminate].
      intros [= <- <-] E. destruct b' as [|d b'].
      * rewrite string_app_nil_l in E. exfalso.
        eapply HasPrefix_false; eassumption.
      * rewrite string_app_cons in E. injection E as -> E.
        simpl. apply le_n_S. eapply IH; [reflexivity|exact E].
Qed.

(** [strings.Contains] decides occurrence. *)
Lemma Contains_occurs (s sub : string) :
  strings.Contains s sub = true <-> occurs_in sub s.
Proof.
  unfold strings.Contains. destruct (strings.Cut s sub) as [[b a]|] eqn:C.
  - split; [intros _|reflexivity]. exists b, a. apply Cut_Some, C.
  - split; [discriminate|]. intros H. apply Cut_None in C. contradiction.
Qed.

Lemma Contains_false (s sub : string) :
  strings.Contains s sub = false <-> ~ occurs_in sub s.
Proof.
  rewrite <- Contains_occurs. destruct (strings.Contains s sub); split; done.
Qed.

Lemma Contains_app_r (a b : string) : strings.Contains (a +:+ b) b = true.
Proof. apply Contains_occurs. exists a, "". rewrite string_app_nil_r. reflexivity. Qed.

Lemma Contains_nil (sub : string) : sub <> "" -> strings.Contains "" sub = false.
Proof. intros H. destruct sub; [contradiction|reflexivity]. Qed.

Lemma Replace1_prefix (p r new : string) :
  strings.Replace1 (p +:+ r) p new = new +:+ r.
Proof. unfold strings.Replace1. rewrite Cut_prefix. reflexivity. Qed.

End StringFacts.

(** * The export store: [Exists] *)

Section ExportStore.

Lemma Exists_pure (path : string) (w : World) : snd (share.Exists path w) = w.
Proof.
  unfold share.Exists, mbind, M_bind, ioutil.ReadFile, gets.
  destruct (exports w); reflexivity.
Qed.

(** C3 (as the code has it). [Exists(path)] is true exactly when the exports
    file can be read and its content has ["<path> "] as a run of bytes
    somewhere.  The space after the path keeps a longer path with the same
    beginning from matching: ["/data"] is not found in a file whose only
    line is ["/data2 10.0.2.2 -alldirs -mapall=501:20"].  The match is by
    content all the same, not by token: ["/data"] is found in a file whose
    only line is ["/srv/data 10.0.2.2 -alldirs -mapall=501:20"]. *)
Theorem Exists_iff_readable_and_occurs :
  (forall (w : World) (path : string),
     fst (share.Exists path w) = true <->
     exists content : string,
       exports w = inl content /\ occurs_in (path +:+ " ") content) /\
  (forall w : World,
     fst (share.Exists "/data"
            (store "/data2 10.0.2.2 -alldirs -mapall=501:20" w)) = false) /\
  (forall w : World,
     fst (share.Exists "/data"
            (store "/srv/data 10.0.2.2 -alldirs -mapall=501:20" w)) = true).
Proof.
  split; [|split].
  - intros w path.
    unfold share.Exists, mbind, M_bind, ioutil.ReadFile, gets, bytes.Contains.
    destruct (exports w) as [content|e]; simpl.
    + rewrite Contains_occurs. split.
      * intros H. exists content. split; [reflexivity|exact H].
      * intros (c & [= <-] & H). exact H.
    + split; [discriminate|]. intros (c & [=] & _).
  - intros w. vm_compute. reflexivity.
  - intros w. vm_compute. reflexivity.
Qed.

(** C3, the claim's example refuted: the exports file holds only
    ["/data2 10.0.2.2 -alldirs -mapall=501:20"], and [Exists("/data")] is
    false. *)
Lemma Exists_data_not_in_data2 :
  let w := world_of (inl "/data2 10.0.2.2 -alldirs -mapall=501:20") [] 20 in
  exports w = inl "/data2 10.0.2.2 -alldirs -mapall=501:20" /\
  fst (share.Exists "/data" w) = false.
Proof. split; vm_compute; reflexivity. Qed.

End ExportStore.

(** * The path validator: [cleanLine] *)

Section PathValidator.

Variable w : World.

Lemma goodPaths_cons (p : string) (paths : list string) :
  share.goodPaths w (p :: paths) =
  match os.Stat w p with
  | inl true => p :: share.goodPaths w paths
  | _ => share.goodPaths w paths
  end.
Proof. reflexivity. Qed.

Lemma goodPaths_sublist (paths : list string) :
  sublist (share.goodPaths w paths) paths.
Proof.
  induction paths as [|p paths IH]; [constructor|].
  rewrite goodPaths_cons.
  destruct (os.Stat w p) as [[|]|].
  - apply sublist_skip, IH.
  - apply sublist_cons, IH.
  - apply sublist_cons, IH.
Qed.

(** A token is kept exactly when it is a token of the input that
    [os.Stat] finds and that is a directory. *)
Lemma goodPaths_is_dir (paths : list string) (t : string) :
  t ∈ share.goodPaths w paths <-> t ∈ paths /\ os.Stat w t = inl true.
Proof.
  induction paths as [|p paths IH].
  - simpl. rewrite elem_of_nil. tauto.
  - rewrite goodPaths_cons.
    destruct (os.Stat w p) as [[|]|] eqn:E;
      rewrite ?elem_of_cons, IH; split; intros H.
    + destruct H as [->|[H1 H2]]; auto.
    + destruct H as [[->|H1] H2]; auto.
    + destruct H as [H1 H2]; auto.
    + destruct H as [[->|H1] H2]; [congruence|auto].
    + destruct H as [H1 H2]; auto.
    + destruct H as [[->|H1] H2]; [congruence|auto].
Qed.

(** C9. The paths [cleanLine] keeps and renders are drawn from the tokens of
    its input line: every kept token is one of them (they are kept in
    order, none is added), and there are no more kept tokens than input
    tokens. *)
Theorem cleanLine_paths_subset (line lineCheck : string) :
  let input := share.linePaths line lineCheck in
  let output := share.goodPaths w input in
  share.cleanLine w line lineCheck
    = strings.Join output " " +:+ " " +:+ lineCheck /\
  (forall t : string, t ∈ output -> t ∈ input) /\
  sublist output input /\
  (length output <= length input)%nat.
Proof.
  intros input output. split; [reflexivity|].
  pose proof (goodPaths_sublist input) as S.
  split; [|split].
  - intros t H. eapply elem_of_sublist; [exact H|exact S].
  - exact S.
  - apply sublist_length, S.
Qed.

End PathValidator.

(** * The reload driver: [reloadServer] *)

Section ReloadDriver.

Ltac run_reload w :=
  destruct w as [pv u g ex we fw st t rn tr];
  unfold enable_out, check_out, update_out, after_check, after_enable, record,
    step_enable, step_check in *;
  simpl in *; subst;
  unfold share.reloadServer, mbind, M_bind, flag.Lookup_test_v, gets,
    exec.CombinedOutput;
  simpl;
  repeat match goal with
         | H : exit_err _ = _ |- _ => rewrite H; clear H; simpl
         end;
  try reflexivity.

Lemma reloadServer_testing (w : World) :
  testing w = true -> share.reloadServer w = (None, w).
Proof. intros T. run_reload w. Qed.

Lemma reloadServer_enable_fails (w : World) (e : string) :
  testing w = false -> exit_err (enable_out w) = Some e ->
  share.reloadServer w =
    (Some (step_error "enable nfs" (enable_out w) e),
     record (EvLog "debug" ("enable nfs: " +:+ combined (enable_out w)))
            (after_enable w)).
Proof. intros T E. run_reload w. Qed.

Lemma reloadServer_check_fails (w : World) (e : string) :
  testing w = false -> exit_err (enable_out w) = None ->
  exit_err (check_out w) = Some e ->
  share.reloadServer w =
    (Some (step_error "checkexports" (check_out w) e),
     record (EvLog "debug" ("checkexports: " +:+ combined (check_out w)))
            (after_check w)).
Proof. intros T E C. run_reload w. Qed.

Lemma reloadServer_update_fails (w : World) (e : string) :
  testing w = false -> exit_err (enable_out w) = None ->
  exit_err (check_out w) = None -> exit_err (update_out w) = Some e ->
  share.reloadServer w =
    (Some (step_error "update" (update_out w) e),
     record (EvLog "debug" ("update: " +:+ combined (update_out w)))
            (after_update w)).
Proof. intros T E C U. run_reload w. Qed.

Lemma reloadServer_succeeds (w : World) :
  testing w = false -> exit_err (enable_out w) = None ->
  exit_err (check_out w) = None -> exit_err (update_out w) = None ->
  share.reloadServer w = (None, after_update w).
Proof. intros T E C U. run_reload w. Qed.

(** The four ways a run outside of tests can go. *)
Lemma reloadServer_by_cases (w : World) :
  (testing w = false ->
   forall e : string, exit_err (enable_out w) = Some e ->
     fst (share.reloadServer w)
       = Some ("enable nfs: " +:+ combined (enable_out w) +:+ " " +:+ e) /\
     trace (snd (share.reloadServer w)) =
       trace w ++ [step_enable;
                   EvLog "debug" ("enable nfs: " +:+ combined (enable_out w))]) /\
  (testing w = false -> exit_err (enable_out w) = None ->
   forall e : string, exit_err (check_out w) = Some e ->
     fst (share.reloadServer w)
       = Some ("checkexports: " +:+ combined (check_out w) +:+ " " +:+ e) /\
     trace (snd (share.reloadServer w)) =
       trace w ++ [step_enable; step_check;
                   EvLog "debug" ("checkexports: " +:+ combined (check_out w))]) /\
  (testing w = false -> exit_err (enable_out w) = None ->
   exit_err (check_out w) = None ->
   forall e : string, exit_err (update_out w) = Some e ->
     fst (share.reloadServer w)
       = Some ("update: " +:+ combined (update_out w) +:+ " " +:+ e) /\
     trace (snd (share.reloadServer w)) =
       trace w ++ [step_enable; step_check; step_update;
                   EvLog "debug" ("update: " +:+ combined (update_out w))]) /\
  (testing w = false -> exit_err (enable_out w) = None ->
   exit_err (check_out w) = None -> exit_err (update_out w) = None ->
     fst (share.reloadServer w) = None /\
     trace (snd (share.reloadServer w))
       = trace w ++ [step_enable; step_check; step_update]).
Proof.
  split; [intros T e E; rewrite (reloadServer_enable_fails w e T E)|].
  { split; [reflexivity|]. simpl. rewrite <- !app_assoc. reflexivity. }
  split; [intros T E e C; rewrite (reloadServer_check_fails w e T E C)|].
  { split; [reflexivity|]. simpl. rewrite <- !app_assoc. reflexivity. }
  split; [intros T E C e U; rewrite (reloadServer_update_fails w e T E C U)
         |intros T E C U; rewrite (reloadServer_succeeds w T E C U)].
  - split; [reflexivity|]. simpl. rewrite <- !app_assoc. reflexivity.
  - split; [reflexivity|]. simpl. rewrite <- !app_assoc. reflexivity.
Qed.

Ltac not_among :=
  unfold step_enable, step_check, step_update;
  rewrite ?elem_of_cons, elem_of_nil; intros H;
  repeat match type of H with
         | _ \/ _ => destruct H as [H|H]
         end;
  solve [discriminate H | contradiction].

(** C6. [reloadServer] runs enable, check and update in this order and
    stops at the first step that fails: check is only run after enable
    succeeded and update only after enable and check succeeded, so when
    enable fails neither check nor update is run and when check fails
    update is not run; the error returned is the step's name, its captured
    output and the step's error.  (In a test binary no step is run at
    all.) *)
Theorem reloadServer_fail_fast (w : World) :
  let r := share.reloadServer w in
  (exists new : list Event,
     trace (snd r) = trace w ++ new /\
     (step_check ∈ new -> exit_err (enable_out w) = None) /\
     (step_update ∈ new ->
        exit_err (enable_out w) = None /\ exit_err (check_out w) = None)) /\
  (testing w = true -> r = (None, w)) /\
  (testing w = false ->
   forall e : string, exit_err (enable_out w) = Some e ->
     fst r = Some ("enable nfs: " +:+ combined (enable_out w) +:+ " " +:+ e) /\
     trace (snd r) =
       trace w ++ [step_enable;
                   EvLog "debug" ("enable nfs: " +:+ combined (enable_out w))]) /\
  (testing w = false -> exit_err (enable_out w) = None ->
   forall e : string, exit_err (check_out w) = Some e ->
     fst r = Some ("checkexports: " +:+ combined (check_out w) +:+ " " +:+ e) /\
     trace (snd r) =
       trace w ++ [step_enable; step_check;
                   EvLog "debug" ("checkexports: " +:+ combined (check_out w))]) /\
  (testing w = false -> exit_err (enable_out w) = None ->
   exit_err (check_out w) = None ->
   forall e : string, exit_err (update_out w) = Some e ->
     fst r = Some ("update: " +:+ combined (update_out w) +:+ " " +:+ e) /\
     trace (snd r) =
       trace w ++ [step_enable; step_check; step_update;
                   EvLog "debug" ("update: " +:+ combined (update_out w))]) /\
  (testing w = false -> exit_err (enable_out w) = None ->
   exit_err (check_out w) = None -> exit_err (update_out w) = None ->
     fst r = None /\
     trace (snd r) = trace w ++ [step_enable; step_check; step_update]).
Proof.
  intros r. subst r. pose proof (reloadServer_by_cases w) as Cases.
  split; [|split; [apply reloadServer_testing|exact Cases]].
  destruct Cases as (C1 & C2 & C3 & C4).
  destruct (testing w) eqn:T.
  { exists []. rewrite (reloadServer_testing w T), app_nil_r.
    split; [reflexivity|]. split; not_among. }
  destruct (exit_err (enable_out w)) as [e|] eqn:E.
  { eexists. split; [apply (C1 eq_refl e eq_refl)|]. split; not_among. }
  destruct (exit_err (check_out w)) as [e|] eqn:C.
  { eexists. split; [apply (C2 eq_refl eq_refl e eq_refl)|].
    split; [reflexivity|not_among]. }
  destruct (exit_err (update_out w)) as [e|] eqn:U.
  { eexists. split; [apply (C3 eq_refl eq_refl eq_refl e eq_refl)|].
    split; [reflexivity|split; reflexivity]. }
  eexists. split; [apply (C4 eq_refl eq_refl eq_refl eq_refl)|].
  split; [reflexivity|split; reflexivity].
Qed.

(** C6 at work: check fails, update is not run, the error names the check. *)
Lemma reloadServer_fail_fast_witness :
  fst (share.reloadServer world_check_fails)
    = Some "checkexports: exports:1: unknown option exit status 1" /\
  trace (snd (share.reloadServer world_check_fails))
    = [step_enable; step_check;
       EvLog "debug" "checkexports: exports:1: unknown option"].
Proof.
  exact (proj1 (proj2 (proj2 (proj2 (reloadServer_fail_fast world_check_fails))))
           eq_refl eq_refl "exit status 1" eq_refl).
Defined.

End ReloadDriver.

(** * The entry merger: [Add] and [Remove] as functions of the world *)

Section Operations.

Ltac run_op w :=
  destruct w as [pv u g ex we fw st t rn tr];
  unfold save_and_reload, Add_data, Remove_data, existing, lineCheck_of in *;
  simpl in *; subst;
  unfold share.Add, share.Remove, mbind, M_bind, models.LoadProvider,
    ioutil.ReadFile, ioutil.WriteFile, share.uid, share.gid, gets,
    lumber.Error, emit;
  simpl.

Lemma Add_no_provider (w : World) (path err : string) :
  provider w = inr err -> share.Add path w = (Some err, w).
Proof. intros P. run_op w. reflexivity. Qed.

Lemma Add_eq (w : World) (path : string) (p : Provider) :
  provider w = inl p ->
  share.Add path w = save_and_reload (Add_data w p path) w.
Proof. intros P. run_op w. destruct ex, we; reflexivity. Qed.

Lemma Remove_no_provider (w : World) (path err : string) :
  provider w = inr err -> share.Remove path w = (Some err, w).
Proof. intros P. run_op w. reflexivity. Qed.


Lemma Remove_eq (w : World) (path : string) (p : Provider) (content : string) :
  provider w = inl p -> exports w = inl content ->
  share.Remove path w = save_and_reload (Remove_data w p path content) w.
Proof. intros P E. run_op w. destruct we; reflexivity. Qed.

Lemma same_env_refl (w : World) : same_env w w.
Proof. repeat split. Qed.

Lemma same_env_trans (w1 w2 w3 : World) :
  same_env w1 w2 -> same_env w2 w3 -> same_env w1 w3.
Proof.
  unfold same_env. intros (?&?&?&?&?&?&?&?) (?&?&?&?&?&?&?&?).
  repeat split; congruence.
Qed.

Lemma reloadServer_frame (w : World) :
  same_env w (snd (share.reloadServer w)) /\
  exports (snd (share.reloadServer w)) = exports w.
Proof.
  destruct w as [pv u g ex we fw st t rn tr].
  unfold share.reloadServer, mbind, M_bind, flag.Lookup_test_v, gets,
    exec.CombinedOutput, same_env.
  simpl. destruct t; simpl; [repeat split|].
  destruct (exit_err _); simpl; [repeat split|].
  destruct (exit_err _); simpl; [repeat split|].
  destruct (exit_err _); simpl; repeat split.
Qed.

Lemma save_and_reload_env (data : string) (w : World) :
  same_env w (snd (save_and_reload data w)).
Proof.
  unfold save_and_reload. destruct (write_error w) eqn:W.
  - repeat split.
  - eapply same_env_trans; [|apply reloadServer_frame]. repeat split.
Qed.

Lemma save_and_reload_exports (data : string) (w : World) :
  write_error w = None -> exports (snd (save_and_reload data w)) = inl data.
Proof.
  intros W. unfold save_and_reload. rewrite W.
  rewrite (proj2 (reloadServer_frame _)). reflexivity.
Qed.

(** The first effect of saving is the write of [data], whatever follows. *)
Lemma save_and_reload_trace (data : string) (w : World) :
  exists rest : list Event,
    trace (snd (save_and_reload data w))
      = trace w ++ EvWriteFile EXPORTSFILE data :: rest.
Proof.
  unfold save_and_reload. destruct (write_error w) eqn:W.
  - exists []. reflexivity.
  - destruct w as [pv u g ex we fw st t rn tr].
    unfold share.reloadServer, mbind, M_bind, flag.Lookup_test_v, gets,
      exec.CombinedOutput, lumber.Debug, emit, store, record.
    simpl. destruct t; simpl; [exists []; reflexivity|].
    destruct (exit_err _); simpl;
      [eexists; rewrite <- !app_assoc; reflexivity|].
    destruct (exit_err _); simpl;
      [eexists; rewrite <- !app_assoc; reflexivity|].
    destruct (exit_err _); simpl;
      eexists; rewrite <- !app_assoc; reflexivity.
Qed.

Lemma render_lineCheck_nonempty (ip : string) (u g : Z) :
  share.render_lineCheck ip u g <> "".
Proof.
  unfold share.render_lineCheck. destruct ip as [|c ip].
  - rewrite string_app_nil_l. discriminate.
  - rewrite string_app_cons. discriminate.
Qed.

(** Without a readable file [Add] sees one empty line and appends the
    rule after it. *)
Lemma Add_data_unreadable (w : World) (p : Provider) (path err : string) :
  exports w = inr err ->
  Add_data w p path = newline +:+ path +:+ " " +:+ lineCheck_of p w.
Proof.
  intros E. unfold Add_data, existing. rewrite E.
  change (strings.Split "" newline) with [""].
  unfold share.Add_lines. simpl.
  rewrite Contains_nil by apply render_lineCheck_nonempty.
  reflexivity.
Qed.



(** C2, refuted: the exports file cannot be read, and [Add] returns no
    error and writes the file. *)
Lemma Add_read_failure_not_returned :
  exports world_unreadable
    = inr "open /etc/exports: no such file or directory" /\
  fst (share.Add "/srv/app" world_unreadable) = None /\
  trace (snd (share.Add "/srv/app" world_unreadable))
    = [EvWriteFile "/etc/exports"
         (newline +:+ "/srv/app 10.0.2.2 -alldirs -mapall=501:20")].
Proof. repeat split; vm_compute; reflexivity. Qed.

(** C2 (as the code has it). When the exports file cannot be read, [Add]
    does not return the read error: it goes on as if the file were empty
    and hands ["\n<path> <lineCheck>"] to the write.  When the write fails
    it returns the write error, the write being its only effect; when the
    write succeeds it goes on with the reload and returns its outcome. *)
Theorem Add_read_failure_continues
    (w : World) (path : string) (p : Provider) (err : string) :
  provider w = inl p -> exports w = inr err ->
  let data := newline +:+ path +:+ " " +:+ lineCheck_of p w in
  let w' := record (EvWriteFile EXPORTSFILE data) w in
  (forall e : string, write_error w = Some e ->
     fst (share.Add path w) = Some e /\
     trace (snd (share.Add path w))
       = trace w ++ [EvWriteFile EXPORTSFILE data]) /\
  (write_error w = None ->
     share.Add path w = share.reloadServer (store data w')).
Proof.
  intros P E data w'. rewrite (Add_eq w path p P).
  rewrite (Add_data_unreadable w p path err E). fold data.
  unfold save_and_reload. fold w'.
  split; [intros e W|intros W]; rewrite W; [split|]; reflexivity.
Qed.

Lemma Add_read_failure_continues_witness :
  share.Add "/srv/app" world_unreadable
    = share.reloadServer
        (store (newline +:+ "/srv/app" +:+ " " +:+
                lineCheck_of (mkProvider "10.0.2.2") world_unreadable)
           (record
              (EvWriteFile EXPORTSFILE
                 (newline +:+ "/srv/app" +:+ " " +:+
                  lineCheck_of (mkProvider "10.0.2.2") world_unreadable))
              world_unreadable)).
Proof.
  exact (proj2 (Add_read_failure_continues world_unreadable "/srv/app"
                  (mkProvider "10.0.2.2")
                  "open /etc/exports: no such file or directory"
                  eq_refl eq_refl) eq_refl).
Defined.

(** C10. When the exports file cannot be read, [Add] sees one empty line, and
    what it writes is that empty first line followed by the new rule line:
    the text begins with a newline and is not the rule line alone. *)
Theorem Add_unreadable_writes_empty_first_line
    (w : World) (path : string) (p : Provider) (err : string) :
  provider w = inl p -> exports w = inr err ->
  let rule := path +:+ " " +:+ lineCheck_of p w in
  let data := strings.Join [""; rule] newline in
  strings.Split (existing w) newline = [""] /\
  data = newline +:+ rule /\
  data <> rule /\
  (exists rest : list Event,
     trace (snd (share.Add path w))
       = trace w ++ EvWriteFile EXPORTSFILE data :: rest) /\
  (write_error w = None -> exports (snd (share.Add path w)) = inl data).
Proof.
  intros P E rule data.
  assert (D : data = newline +:+ rule) by reflexivity.
  split; [unfold existing; rewrite E; reflexivity|].
  split; [exact D|]. split.
  { rewrite D. intros H. apply (f_equal String.length) in H.
    rewrite string_length_app in H. simpl in H. lia. }
  rewrite (Add_eq w path p P), (Add_data_unreadable w p path err E).
  fold rule. rewrite <- D. split.
  - apply save_and_reload_trace.
  - apply save_and_reload_exports.
Qed.

Lemma Add_unreadable_writes_empty_first_line_witness :
  exports (snd (share.Add "/srv/app" world_unreadable))
    = inl (strings.Join
             [""; "/srv/app" +:+ " " +:+
                  lineCheck_of (mkProvider "10.0.2.2") world_unreadable]
             newline).
Proof.
  exact (proj2 (proj2 (proj2 (proj2
           (Add_unreadable_writes_empty_first_line world_unreadable "/srv/app"
              (mkProvider "10.0.2.2")
              "open /etc/exports: no such file or directory"
              eq_refl eq_refl)))) eq_refl).
Defined.

End Operations.

(** * The loops of [Add] and [Remove] over the lines *)

Section Lines.

Variable w : World.
Variables path lineCheck : string.

Lemma Stat_ext (w' : World) (t : string) :
  stat w' = stat w -> os.Stat w' t = os.Stat w t.
Proof. intros H. unfold os.Stat. rewrite H. reflexivity. Qed.

Lemma goodPaths_ext (w' : World) (paths : list string) :
  stat w' = stat w -> share.goodPaths w' paths = share.goodPaths w paths.
Proof.
  intros H. induction paths as [|p paths IH]; [reflexivity|].
  rewrite !goodPaths_cons, IH, (Stat_ext w' p H). reflexivity.
Qed.

Lemma cleanLine_ext (w' : World) (line lc : string) :
  stat w' = stat w -> share.cleanLine w' line lc = share.cleanLine w line lc.
Proof. intros H. unfold share.cleanLine. rewrite (goodPaths_ext w' _ H). reflexivity. Qed.

Lemma Add_loop_cons (line : string) (rest : list string) :
  share.Add_loop w path lineCheck (line :: rest) =
  if strings.Contains line lineCheck
  then (true, share.cleanLine w (share.sprintf_s_s path line) lineCheck :: rest)
  else (fst (share.Add_loop w path lineCheck rest),
        line :: snd (share.Add_loop w path lineCheck rest)).
Proof.
  simpl. destruct (strings.Contains line lineCheck); [reflexivity|].
  destruct (share.Add_loop w path lineCheck rest). reflexivity.
Qed.

Lemma Add_loop_ext (w' : World) (lines : list string) :
  stat w' = stat w ->
  share.Add_loop w' path lineCheck lines = share.Add_loop w path lineCheck lines.
Proof.
  intros H. induction lines as [|l lines IH]; [reflexivity|].
  simpl. rewrite IH, (cleanLine_ext w' _ _ H). reflexivity.
Qed.

Lemma Add_lines_ext (w' : World) (lines : list string) :
  stat w' = stat w ->
  share.Add_lines w' path lineCheck lines = share.Add_lines w path lineCheck lines.
Proof. intros H. unfold share.Add_lines. rewrite (Add_loop_ext w' _ H). reflexivity. Qed.

(** No line contains [lineCheck]: the loop finds nothing and changes
    nothing. *)
Lemma Add_loop_none (lines : list string) :
  (forall l : string, l ∈ lines -> strings.Contains l lineCheck = false) ->
  share.Add_loop w path lineCheck lines = (false, lines).
Proof.
  induction lines as [|l lines IH]; intros H; [reflexivity|].
  rewrite Add_loop_cons, (H l) by apply list_elem_of_here.
  rewrite IH; [reflexivity|]. intros l' Hl'. apply H, list_elem_of_further, Hl'.
Qed.

(** The first line that contains [lineCheck] is rewritten, and only it. *)
Lemma Add_loop_first (pre : list string) (l : string) (post : list string) :
  (forall l' : string, l' ∈ pre -> strings.Contains l' lineCheck = false) ->
  strings.Contains l lineCheck = true ->
  share.Add_loop w path lineCheck (pre ++ l :: post) =
  (true, pre ++ share.cleanLine w (share.sprintf_s_s path l) lineCheck :: post).
Proof.
  intros Hpre Hl. induction pre as [|x pre IH]; simpl app.
  - rewrite Add_loop_cons, Hl. reflexivity.
  - rewrite Add_loop_cons, (Hpre x) by apply list_elem_of_here.
    rewrite IH; [reflexivity|].
    intros l' Hl'. apply Hpre, list_elem_of_further, Hl'.
Qed.

Lemma Add_loop_found (lines : list string) (l : string) :
  l ∈ lines -> strings.Contains l lineCheck = true ->
  fst (share.Add_loop w path lineCheck lines) = true.
Proof.
  intros Hl C. induction lines as [|x lines IH]; [inversion Hl|].
  rewrite Add_loop_cons.
  destruct (strings.Contains x lineCheck) eqn:X; [reflexivity|].
  apply elem_of_cons in Hl as [->|Hl]; [congruence|]. apply IH, Hl.
Qed.

Lemma Add_loop_length (lines : list string) :
  length (snd (share.Add_loop w path lineCheck lines)) = length lines.
Proof.
  induction lines as [|l lines IH]; [reflexivity|].
  rewrite Add_loop_cons. destruct (strings.Contains l lineCheck); simpl; auto.
Qed.

Lemma Add_loop_lookup_other (lines : list string) (i : nat) (l : string) :
  lines !! i = Some l -> strings.Contains l lineCheck = false ->
  snd (share.Add_loop w path lineCheck lines) !! i = Some l.
Proof.
  revert i. induction lines as [|x lines IH]; intros i Hi Hl; [discriminate|].
  rewrite Add_loop_cons. destruct i as [|i]; simpl in Hi.
  - injection Hi as ->. rewrite Hl. reflexivity.
  - destruct (strings.Contains x lineCheck); simpl; [exact Hi|]. apply IH; assumption.
Qed.

Lemma Add_lines_lookup_other (lines : list string) (i : nat) (l : string) :
  lines !! i = Some l -> strings.Contains l lineCheck = false ->
  share.Add_lines w path lineCheck lines !! i = Some l.
Proof.
  intros Hi Hl. pose proof (Add_loop_lookup_other lines i l Hi Hl) as H.
  unfold share.Add_lines.
  destruct (share.Add_loop w path lineCheck lines) as [[|] lines']; simpl in H;
    [exact H|].
  apply lookup_app_l_Some, H.
Qed.

Lemma Remove_loop_cons (line : string) (rest newLines : list string) :
  share.Remove_loop w path lineCheck (line :: rest) newLines =
  share.Remove_loop w path lineCheck rest
    (newLines ++
     if strings.Contains line lineCheck
     then if bool_decide (strings.Replace1 line (path +:+ " ") "" <> lineCheck)
          then [share.cleanLine w (strings.Replace1 line (path +:+ " ") "") lineCheck]
          else []
     else [line]).
Proof.
  simpl. destruct (strings.Contains line lineCheck); simpl; [|reflexivity].
  destruct (bool_decide _); [reflexivity|]. rewrite app_nil_r. reflexivity.
Qed.

Lemma Remove_loop_acc (lines newLines : list string) :
  share.Remove_loop w path lineCheck lines newLines =
  newLines ++ share.Remove_loop w path lineCheck lines [].
Proof.
  revert newLines. induction lines as [|l lines IH]; intros newLines.
  - simpl. rewrite app_nil_r. reflexivity.
  - rewrite !Remove_loop_cons. rewrite IH. rewrite (IH ([] ++ _)).
    rewrite app_assoc. reflexivity.
Qed.

Lemma Remove_loop_app (l1 l2 : list string) :
  share.Remove_loop w path lineCheck (l1 ++ l2) [] =
  share.Remove_loop w path lineCheck l1 [] ++ share.Remove_loop w path lineCheck l2 [].
Proof.
  induction l1 as [|l l1 IH]; [reflexivity|].
  rewrite <- app_comm_cons, !Remove_loop_cons.
  rewrite (Remove_loop_acc (l1 ++ l2)), (Remove_loop_acc l1 (_ ++ _)), IH.
  rewrite app_assoc. reflexivity.
Qed.

Lemma Remove_loop_ext (w' : World) (lines newLines : list string) :
  stat w' = stat w ->
  share.Remove_loop w' path lineCheck lines newLines =
  share.Remove_loop w path lineCheck lines newLines.
Proof.
  intros H. revert newLines. induction lines as [|l lines IH]; intros newLines;
    [reflexivity|].
  simpl. rewrite !IH, (cleanLine_ext w' _ _ H). reflexivity.
Qed.

(** Lines that do not contain [lineCheck] pass through [Remove]. *)
Lemma Remove_loop_none (lines : list string) :
  (forall l : string, l ∈ lines -> strings.Contains l lineCheck = false) ->
  share.Remove_loop w path lineCheck lines [] = lines.
Proof.
  induction lines as [|l lines IH]; intros H; [reflexivity|].
  rewrite Remove_loop_cons, Remove_loop_acc, (H l) by apply list_elem_of_here.
  rewrite IH; [reflexivity|]. intros l' Hl'. apply H, list_elem_of_further, Hl'.
Qed.

(** A line that is exactly ["<path> <lineCheck>"] is left out by [Remove]. *)
Lemma Remove_loop_sole_path :
  share.Remove_loop w path lineCheck [share.sprintf_s_s path lineCheck] [] = [].
Proof.
  rewrite Remove_loop_cons. unfold share.sprintf_s_s.
  rewrite <- string_app_assoc, Contains_app_r, Replace1_prefix.
  rewrite string_app_nil_l, bool_decide_eq_false_2; [reflexivity|].
  intros H. apply H. reflexivity.
Qed.

End Lines.

(** * Splitting and joining *)

Section SplitJoin.

Lemma Cut_length (s sep before after : string) :
  strings.Cut s sep = Some (before, after) ->
  String.length s
    = (String.length before + (String.length sep + String.length after))%nat.
Proof.
  intros H. apply Cut_Some in H. rewrite H, !string_length_app. reflexivity.
Qed.

Lemma Cut_nil (c : ascii) (sep : string) : strings.Cut "" (String c sep) = None.
Proof. reflexivity. Qed.

Lemma Split_loop_S (n : nat) (s sep : string) :
  strings.Split_loop (S n) s sep =
  match strings.Cut s sep with
  | Some (before, after) => before :: strings.Split_loop n after sep
  | None => [s]
  end.
Proof. reflexivity. Qed.

(** More fuel than the length of the string changes nothing. *)
Lemma Split_loop_fuel (c : ascii) (sep' : string) (n m : nat) (s : string) :
  (String.length s <= n)%nat -> (String.length s <= m)%nat ->
  strings.Split_loop n s (String c sep') = strings.Split_loop m s (String c sep').
Proof.
  revert m s. induction n as [|n IH]; intros m s Hn Hm.
  - destruct s; [|simpl in Hn; lia]. destruct m; reflexivity.
  - destruct m as [|m].
    + destruct s; [reflexivity|simpl in Hm; lia].
    + simpl. destruct (strings.Cut s (String c sep')) as [[b a]|] eqn:C;
        [|reflexivity].
      apply Cut_length in C. simpl in C. f_equal. apply IH; lia.
Qed.

(** [strings.Split] with a non-empty separator, one cut at a time. *)
Lemma Split_unfold (c : ascii) (sep' : string) (s : string) :
  strings.Split s (String c sep') =
  match strings.Cut s (String c sep') with
  | Some (before, after) => before :: strings.Split after (String c sep')
  | None => [s]
  end.
Proof.
  unfold strings.Split. destruct s as [|d s]; [reflexivity|].
  change (String.length (String d s)) with (S (String.length s)).
  rewrite Split_loop_S.
  destruct (strings.Cut (String d s) (String c sep')) as [[b a]|] eqn:C;
    [|reflexivity].
  apply Cut_length in C. simpl in C. f_equal. apply Split_loop_fuel; lia.
Qed.

Lemma Split_nonempty (c : ascii) (sep' : string) (s : string) :
  strings.Split s (String c sep') <> [].
Proof.
  rewrite Split_unfold. destruct (strings.Cut _ _) as [[b a]|]; discriminate.
Qed.

(** A string in which the separator does not occur is one piece. *)
Lemma Split_no_sep (c : ascii) (sep' : string) (s : string) :
  ~ occurs_in (String c sep') s -> strings.Split s (String c sep') = [s].
Proof.
  intros H. apply Contains_false in H. unfold strings.Contains in H.
  rewrite Split_unfold. destruct (strings.Cut _ _); [discriminate|reflexivity].
Qed.

Lemma Join_cons (x y : string) (rest : list string) (sep : string) :
  strings.Join (x :: y :: rest) sep = x +:+ sep +:+ strings.Join (y :: rest) sep.
Proof. reflexivity. Qed.

Lemma Join_snoc (ls : list string) (x sep : string) :
  ls <> [] -> strings.Join (ls ++ [x]) sep = strings.Join ls sep +:+ sep +:+ x.
Proof.
  induction ls as [|a ls IH]; intros H; [contradiction|].
  destruct ls as [|b ls]; [reflexivity|].
  rewrite <- !app_comm_cons. rewrite <- app_comm_cons in IH.
  rewrite Join_cons, IH by discriminate.
  rewrite (Join_cons a b), !string_app_assoc. reflexivity.
Qed.

(** Joining the pieces with the separator gives the string back. *)
Lemma Join_Split (c : ascii) (sep' : string) (s : string) :
  strings.Join (strings.Split s (String c sep')) (String c sep') = s.
Proof.
  remember (String.length s) as n eqn:Hn. revert s Hn.
  induction n as [n IH] using lt_wf_ind. intros s Hn.
  rewrite Split_unfold.
  destruct (strings.Cut s (String c sep')) as [[b a]|] eqn:C; [|reflexivity].
  pose proof (Cut_length _ _ _ _ C) as L. simpl in L.
  pose proof (Split_nonempty c sep' a) as NE.
  destruct (strings.Split a (String c sep')) as [|x rest] eqn:S; [contradiction|].
  rewrite Join_cons, <- S, (IH (String.length a)) by (reflexivity || lia).
  symmetry. apply Cut_Some, C.
Qed.

Lemma Split_char_nil (c : ascii) : strings.Split "" (String c "") = [""].
Proof. reflexivity. Qed.

Lemma Split_char_sep (c : ascii) (s : string) :
  strings.Split (String c s) (String c "") = "" :: strings.Split s (String c "").
Proof.
  rewrite Split_unfold. simpl strings.Cut. rewrite Ascii.eqb_refl. reflexivity.
Qed.

Lemma Split_char_other (c d : ascii) (s : string) :
  d <> c ->
  strings.Split (String d s) (String c "") =
  match strings.Split s (String c "") with
  | h :: t => String d h :: t
  | [] => [String d ""]
  end.
Proof.
  intros H. rewrite (Split_unfold c "" s), (Split_unfold c "" (String d s)).
  simpl strings.Cut. destruct (Ascii.eqb_spec d c) as [->|_]; [contradiction|].
  destruct (strings.Cut s (String c "")) as [[b a]|]; reflexivity.
Qed.

(** Splitting at a one-byte separator distributes over a separator in
    the middle. *)
Lemma Split_char_app (c : ascii) (a b : string) :
  strings.Split (a +:+ String c "" +:+ b) (String c "") =
  strings.Split a (String c "") ++ strings.Split b (String c "").
Proof.
  induction a as [|d a IH].
  - rewrite string_app_nil_l, string_app_cons, string_app_nil_l.
    rewrite Split_char_sep. reflexivity.
  - rewrite string_app_cons. destruct (Ascii.eqb_spec d c) as [->|N].
    + rewrite !Split_char_sep, IH. reflexivity.
    + rewrite !Split_char_other, IH by exact N.
      pose proof (Split_nonempty c "" a) as NE.
      destruct (strings.Split a (String c "")); [contradiction|reflexivity].
Qed.

End SplitJoin.

(** * The entry merger: what [Add] and [Remove] leave in the file *)

Section EntryMerger.

Lemma Add_step (w : World) (path : string) (p : Provider) :
  provider w = inl p -> write_error w = None ->
  exports (snd (share.Add path w)) = inl (Add_data w p path) /\
  same_env w (snd (share.Add path w)).
Proof.
  intros P W. rewrite (Add_eq w path p P). split.
  - apply save_and_reload_exports, W.
  - apply save_and_reload_env.
Qed.

Lemma Remove_step (w : World) (path : string) (p : Provider) (content : string) :
  provider w = inl p -> exports w = inl content -> write_error w = None ->
  exports (snd (share.Remove path w)) = inl (Remove_data w p path content) /\
  same_env w (snd (share.Remove path w)).
Proof.
  intros P E W. rewrite (Remove_eq w path p content P E). split.
  - apply save_and_reload_exports, W.
  - apply save_and_reload_env.
Qed.

Lemma lineCheck_of_env (w w' : World) (p : Provider) :
  same_env w w' -> lineCheck_of p w' = lineCheck_of p w.
Proof.
  intros (_ & U & G & _). unfold lineCheck_of. rewrite U, G. reflexivity.
Qed.

Lemma Remove_data_env (w w' : World) (p : Provider) (path content : string) :
  same_env w w' -> Remove_data w' p path content = Remove_data w p path content.
Proof.
  intros S. unfold Remove_data. rewrite (lineCheck_of_env w w' p S).
  destruct S as (_ & _ & _ & _ & S & _).
  rewrite (Remove_loop_ext w _ _ w' _ _ S). reflexivity.
Qed.

(** With no line for the selector, [Add] appends the rule line to the
    text of the file. *)
Lemma Add_data_no_match (w : World) (p : Provider) (path : string) :
  (forall l : string, l ∈ strings.Split (existing w) newline ->
                      strings.Contains l (lineCheck_of p w) = false) ->
  Add_data w p path
    = existing w +:+ newline +:+ path +:+ " " +:+ lineCheck_of p w.
Proof.
  intros H. unfold Add_data, share.Add_lines.
  rewrite (Add_loop_none w path _ _ H). unfold newline.
  rewrite Join_snoc by apply Split_nonempty.
  rewrite Join_Split. reflexivity.
Qed.

(** C1, refuted: the file holds the single line
    ["/srv/app 10.0.2.2 -alldirs -mapall=501:20"], ["/srv/app"] is a
    directory, and after [Remove("/srv/app")] the file is empty: the line
    is gone, no [" 10.0.2.2 -alldirs -mapall=501:20"] is left.  The same
    after [Add("/srv/app")] on the bare selector line. *)
Lemma Remove_last_path_drops_line :
  let w := world_of (inl ("/srv/app " +:+ rule_501_20)) ["/srv/app"] 20 in
  let w' := world_of (inl rule_501_20) ["/srv/app"] 20 in
  strings.Split ("/srv/app " +:+ rule_501_20) newline
    = ["/srv/app" +:+ " " +:+ lineCheck_of (mkProvider "10.0.2.2") w] /\
  exports (snd (share.Remove "/srv/app" w)) = inl "" /\
  exports (snd (share.Remove "/srv/app" w)) <> inl (" " +:+ rule_501_20) /\
  exports (snd (share.Add "/srv/app" w')) = inl ("/srv/app " +:+ rule_501_20) /\
  exports (snd (share.Remove "/srv/app" (snd (share.Add "/srv/app" w'))))
    = inl "".
Proof. repeat split; vm_compute; (reflexivity || discriminate). Qed.

(** C1 (as the code has it). A line that is exactly ["<path> <lineCheck>"]
    is left out of what [Remove(path)] saves: the saved text is made of the
    lines before it and the lines after it as [Remove] treats them, and no
    empty rule stands in for the line.  In particular, on a file with no
    line for the selector, [Add(path)] followed by [Remove(path)] gives the
    text of the file back (the empty text when there was no file). *)
Theorem Remove_sole_path_drops_line :
  (forall (w : World) (path : string) (p : Provider) (content : string)
          (pre post : list string),
     provider w = inl p -> exports w = inl content ->
     strings.Split content newline
       = pre ++ (path +:+ " " +:+ lineCheck_of p w) :: post ->
     let saved :=
       strings.Join
         (share.Remove_loop w path (lineCheck_of p w) pre [] ++
          share.Remove_loop w path (lineCheck_of p w) post []) newline in
     (exists rest : list Event,
        trace (snd (share.Remove path w))
          = trace w ++ EvWriteFile EXPORTSFILE saved :: rest) /\
     (write_error w = None ->
        exports (snd (share.Remove path w)) = inl saved)) /\
  (forall (w : World) (path : string) (p : Provider),
     provider w = inl p -> write_error w = None ->
     (forall l : string, l ∈ strings.Split (existing w) newline ->
                         strings.Contains l (lineCheck_of p w) = false) ->
     ~ occurs_in newline (path +:+ " " +:+ lineCheck_of p w) ->
     exports (snd (share.Remove path (snd (share.Add path w))))
       = inl (existing w)).
Proof.
  split.
  - intros w path p content pre post P E S saved.
    assert (D : Remove_data w p path content = saved).
    { unfold Remove_data. rewrite S.
      change (pre ++ (path +:+ " " +:+ lineCheck_of p w) :: post)
        with (pre ++ [share.sprintf_s_s path (lineCheck_of p w)] ++ post).
      rewrite !Remove_loop_app, Remove_loop_sole_path. reflexivity. }
    rewrite (Remove_eq w path p content P E), D. split.
    + apply save_and_reload_trace.
    + apply save_and_reload_exports.
  - intros w path p P W N L.
    destruct (Add_step w path p P W) as [E1 S1].
    assert (P1 : provider (snd (share.Add path w)) = inl p)
      by (rewrite (proj1 S1); exact P).
    assert (W1 : write_error (snd (share.Add path w)) = None)
      by (destruct S1 as (_ & _ & _ & -> & _); exact W).
    destruct (Remove_step _ path p _ P1 E1 W1) as [E2 _].
    rewrite E2, (Remove_data_env w _ p path _ S1), (Add_data_no_match w p path N).
    unfold Remove_data, newline in *. rewrite Split_char_app.
    rewrite (Split_no_sep _ _ _ L), Remove_loop_app.
    rewrite (Remove_loop_none w path _ _ N).
    change (path +:+ " " +:+ lineCheck_of p w)
      with (share.sprintf_s_s path (lineCheck_of p w)).
    rewrite Remove_loop_sole_path, app_nil_r, Join_Split. reflexivity.
Qed.

Lemma Remove_sole_path_drops_line_witness :
  exports (snd (share.Remove "/srv/app"
                  (world_of (inl ("/srv/app " +:+ rule_501_20)) ["/srv/app"] 20)))
    = inl (strings.Join [] newline).
Proof.
  exact (proj2 (proj1 Remove_sole_path_drops_line
                  (world_of (inl ("/srv/app " +:+ rule_501_20)) ["/srv/app"] 20)
                  "/srv/app" (mkProvider "10.0.2.2")
                  ("/srv/app " +:+ rule_501_20) [] []
                  eq_refl eq_refl eq_refl) eq_refl).
Defined.

(** C4, refuted: the line for the selector holds ["/gone"], which is not a
    directory; [Add("/new")] saves a line without it. *)
Lemma Add_drops_missing_directory :
  let w := world_of (inl ("/gone " +:+ rule_501_20)) ["/new"] 20 in
  share.linePaths ("/gone " +:+ rule_501_20) rule_501_20 = ["/gone"; ""] /\
  os.Stat w "/gone" = inr "no such file or directory" /\
  exports (snd (share.Add "/new" w)) = inl ("/new " +:+ rule_501_20) /\
  share.linePaths ("/new " +:+ rule_501_20) rule_501_20 = ["/new"; ""].
Proof. repeat split; vm_compute; reflexivity. Qed.

(** C4 (as the code has it). [Add] validates paths too: the first line that
    contains [lineCheck] is saved as [cleanLine] of ["<path> <line>"], so
    of the tokens of ["<path> <line>"] (the first [lineCheck] taken out,
    split at spaces) the saved line keeps exactly those that [os.Stat]
    finds and that are directories, and drops the others, the new path
    among them; the other lines are saved as they are. *)
Theorem Add_cleans_matched_line
    (w : World) (path : string) (p : Provider)
    (pre : list string) (l : string) (post : list string) :
  provider w = inl p ->
  strings.Split (existing w) newline = pre ++ l :: post ->
  (forall l' : string, l' ∈ pre ->
                       strings.Contains l' (lineCheck_of p w) = false) ->
  strings.Contains l (lineCheck_of p w) = true ->
  let tokens := share.linePaths (path +:+ " " +:+ l) (lineCheck_of p w) in
  let kept := share.goodPaths w tokens in
  let saved :=
    strings.Join
      (pre ++ (strings.Join kept " " +:+ " " +:+ lineCheck_of p w) :: post)
      newline in
  (forall t : string, t ∈ kept <-> t ∈ tokens /\ os.Stat w t = inl true) /\
  (exists rest : list Event,
     trace (snd (share.Add path w))
       = trace w ++ EvWriteFile EXPORTSFILE saved :: rest) /\
  (write_error w = None -> exports (snd (share.Add path w)) = inl saved).
Proof.
  intros P S N C tokens kept saved.
  split; [intros t; apply goodPaths_is_dir|].
  assert (D : Add_data w p path = saved).
  { unfold Add_data, share.Add_lines. rewrite S.
    rewrite (Add_loop_first w path _ pre l post N C). reflexivity. }
  rewrite (Add_eq w path p P), D. split.
  - apply save_and_reload_trace.
  - apply save_and_reload_exports.
Qed.

Lemma Add_cleans_matched_line_witness :
  exports (snd (share.Add "/new"
                  (world_of (inl ("/gone " +:+ rule_501_20)) ["/new"] 20)))
    = inl ("/new " +:+ rule_501_20).
Proof.
  exact (proj2 (proj2
           (Add_cleans_matched_line
              (world_of (inl ("/gone " +:+ rule_501_20)) ["/new"] 20)
              "/new" (mkProvider "10.0.2.2") [] ("/gone " +:+ rule_501_20) []
              eq_refl eq_refl
              (fun l' H => False_ind _ (proj1 (elem_of_nil l') H))
              eq_refl)) eq_refl).
Defined.

(** C5, refuted: the selectors 10.0.2.2 501:2 and 10.0.2.2 501:20 differ,
    the only line of the file is the rule of 501:20, and [Add("/b")] for
    501:2 rewrites that line: the rendering of 501:2 is the beginning of the
    rendering of 501:20. *)
Lemma Add_rewrites_line_of_other_selector :
  let w := world_of (inl ("/a " +:+ rule_501_20)) ["/a"; "/b"] 2 in
  lineCheck_of (mkProvider "10.0.2.2") w = "10.0.2.2 -alldirs -mapall=501:2" /\
  share.render_lineCheck "10.0.2.2" 501 20 = rule_501_20 /\
  lineCheck_of (mkProvider "10.0.2.2") w <> rule_501_20 /\
  strings.Split (existing w) newline = ["/a " +:+ rule_501_20] /\
  strings.Contains ("/a " +:+ rule_501_20) rule_501_20 = true /\
  exports (snd (share.Add "/b" w))
    = inl "/b /a 10.0.2.2 -alldirs -mapall=501:2".
Proof. repeat split; vm_compute; (reflexivity || discriminate). Qed.

(** C5 (as the code has it). [Add] saves every line that does not contain
    its [lineCheck] as it is and where it was: the line of another selector
    is kept when it does not contain the [lineCheck] of the selector that
    is added to.  When no line contains the [lineCheck] the lines saved are
    the old ones followed by the new rule line, and otherwise there are as
    many lines as before. *)
Theorem Add_preserves_other_lines (w : World) (path : string) (p : Provider) :
  provider w = inl p ->
  let lc := lineCheck_of p w in
  let lines := strings.Split (existing w) newline in
  let saved := share.Add_lines w path lc lines in
  (exists rest : list Event,
     trace (snd (share.Add path w))
       = trace w ++ EvWriteFile EXPORTSFILE (strings.Join saved newline) :: rest) /\
  (forall (i : nat) (l : string),
     lines !! i = Some l -> strings.Contains l lc = false ->
     saved !! i = Some l) /\
  ((forall l : string, l ∈ lines -> strings.Contains l lc = false) ->
     saved = lines ++ [path +:+ " " +:+ lc]) /\
  ((exists l : string, l ∈ lines /\ strings.Contains l lc = true) ->
     length saved = length lines).
Proof.
  intros P lc lines saved. split; [|split; [|split]].
  - rewrite (Add_eq w path p P). apply save_and_reload_trace.
  - intros i l. apply Add_lines_lookup_other.
  - intros N. unfold saved, share.Add_lines.
    rewrite (Add_loop_none w path lc lines N). reflexivity.
  - intros (l & Hl & C). unfold saved, share.Add_lines.
    pose proof (Add_loop_length w path lc lines) as L.
    pose proof (Add_loop_found w path lc lines l Hl C) as F.
    destruct (share.Add_loop w path lc lines) as [found lines'].
    simpl in F, L. rewrite F. exact L.
Qed.

Lemma Add_preserves_other_lines_witness :
  share.Add_lines (world_of (inl two_rules) ["/a"; "/b"] 20) "/b"
    (lineCheck_of (mkProvider "10.0.2.2")
       (world_of (inl two_rules) ["/a"; "/b"] 20))
    (strings.Split (existing (world_of (inl two_rules) ["/a"; "/b"] 20)) newline)
    !! 0%nat
  = Some "/x 10.0.2.9 -alldirs -mapall=501:20".
Proof.
  exact (proj1 (proj2
           (Add_preserves_other_lines
              (world_of (inl two_rules) ["/a"; "/b"] 20) "/b"
              (mkProvider "10.0.2.2") eq_refl))
           0%nat "/x 10.0.2.9 -alldirs -mapall=501:20" eq_refl eq_refl).
Defined.

Ltac eval_with H1 H2 :=
  unfold Add_data, Remove_data, existing, lineCheck_of;
  repeat match goal with
         | E : _ = _ |- _ => rewrite E
         end;
  let K1 := fresh in let K2 := fresh in
  pose proof H1 as K1; pose proof H2 as K2; vm_compute in K1, K2;
  vm_compute; rewrite ?K1, ?K2; reflexivity.

(** C8. From the file ["10.0.2.2 -alldirs -mapall=501:20"], with provider
    10.0.2.2, user 501:20 and both paths directories throughout (and the
    file writable), [Add("/Users/me/app")], [Add("/Users/me/app2")] and
    [Remove("/Users/me/app")] leave the three lines of the scenario in the
    file, one after the other. *)
Theorem scenario_add_add_remove (w0 : World) :
  provider w0 = inl (mkProvider "10.0.2.2") ->
  getuid w0 = 501%Z -> getgid w0 = 20%Z ->
  exports w0 = inl "10.0.2.2 -alldirs -mapall=501:20" ->
  write_error w0 = None ->
  stat w0 "/Users/me/app" = inl true ->
  stat w0 "/Users/me/app2" = inl true ->
  let w1 := snd (share.Add "/Users/me/app" w0) in
  let w2 := snd (share.Add "/Users/me/app2" w1) in
  let w3 := snd (share.Remove "/Users/me/app" w2) in
  exports w1 = inl "/Users/me/app 10.0.2.2 -alldirs -mapall=501:20" /\
  exports w2
    = inl "/Users/me/app2 /Users/me/app 10.0.2.2 -alldirs -mapall=501:20" /\
  exports w3 = inl "/Users/me/app2 10.0.2.2 -alldirs -mapall=501:20".
Proof.
  intros P U G E W D1 D2 w1 w2 w3.
  destruct (Add_step w0 "/Users/me/app" _ P W) as [E1 S1]. fold w1 in E1, S1.
  assert (A1 : Add_data w0 (mkProvider "10.0.2.2") "/Users/me/app"
               = "/Users/me/app 10.0.2.2 -alldirs -mapall=501:20").
  { clear E1 S1 w1 w2 w3 P W. eval_with D1 D2. }
  rewrite A1 in E1. clear A1.
  destruct S1 as (P1 & U1 & G1 & W1 & T1 & _).
  rewrite P in P1. rewrite U in U1. rewrite G in G1. rewrite W in W1.
  rewrite <- T1 in D1, D2. clearbody w1. clear dependent w0.
  destruct (Add_step w1 "/Users/me/app2" _ P1 W1) as [E2 S2]. fold w2 in E2, S2.
  assert (A2 : Add_data w1 (mkProvider "10.0.2.2") "/Users/me/app2"
               = "/Users/me/app2 /Users/me/app 10.0.2.2 -alldirs -mapall=501:20").
  { clear E2 S2 w2 w3 P1 W1. eval_with D1 D2. }
  rewrite A2 in E2. clear A2.
  split; [exact E1|]. split; [exact E2|].
  destruct S2 as (P2 & U2 & G2 & W2 & T2 & _).
  rewrite P1 in P2. rewrite U1 in U2. rewrite G1 in G2. rewrite W1 in W2.
  rewrite <- T2 in D1, D2. clearbody w2. clear dependent w1.
  destruct (Remove_step w2 "/Users/me/app" _ _ P2 E2 W2) as [E3 _]. fold w3 in E3.
  rewrite E3. f_equal. clear E3 w3 P2 W2 E2. eval_with D1 D2.
Qed.

Lemma scenario_add_add_remove_witness :
  let w0 := world_of (inl rule_501_20) ["/Users/me/app"; "/Users/me/app2"] 20 in
  let w1 := snd (share.Add "/Users/me/app" w0) in
  let w2 := snd (share.Add "/Users/me/app2" w1) in
  let w3 := snd (share.Remove "/Users/me/app" w2) in
  exports w1 = inl "/Users/me/app 10.0.2.2 -alldirs -mapall=501:20" /\
  exports w2
    = inl "/Users/me/app2 /Users/me/app 10.0.2.2 -alldirs -mapall=501:20" /\
  exports w3 = inl "/Users/me/app2 10.0.2.2 -alldirs -mapall=501:20".
Proof.
  exact (scenario_add_add_remove
           (world_of (inl rule_501_20) ["/Users/me/app"; "/Users/me/app2"] 20)
           eq_refl eq_refl eq_refl eq_refl eq_refl eq_refl eq_refl).
Defined.

End EntryMerger.

(** * Further properties of [Add], [Remove] and [reloadServer] *)

Section Failures.

(** X1. When the provider cannot be loaded, [Add] and [Remove] return the
    lookup error and do nothing else: the file is neither read nor written,
    nothing is logged and no command is run. *)
Theorem lookup_failure_aborts (w : World) (path err : string) :
  provider w = inr err ->
  share.Add path w = (Some err, w) /\ share.Remove path w = (Some err, w).
Proof.
  intros P. split; [apply Add_no_provider|apply Remove_no_provider]; exact P.
Qed.

Lemma lookup_failure_aborts_witness :
  share.Add "/srv/app" world_no_provider
    = (Some "provider not found", world_no_provider) /\
  share.Remove "/srv/app" world_no_provider
    = (Some "provider not found", world_no_provider).
Proof.
  exact (lookup_failure_aborts world_no_provider "/srv/app"
           "provider not found" eq_refl).
Defined.

(** X2. When the write of the exports file fails, [Add] and [Remove] return
    the write error and the reload is not attempted: the write is the only
    effect. *)
Theorem write_failure_skips_reload
    (w : World) (path : string) (p : Provider) (e : string) :
  provider w = inl p -> write_error w = Some e ->
  (fst (share.Add path w) = Some e /\
   trace (snd (share.Add path w))
     = trace w ++ [EvWriteFile EXPORTSFILE (Add_data w p path)]) /\
  (forall content : string, exports w = inl content ->
     fst (share.Remove path w) = Some e /\
     trace (snd (share.Remove path w))
       = trace w ++ [EvWriteFile EXPORTSFILE (Remove_data w p path content)]).
Proof.
  intros P W. split.
  - rewrite (Add_eq w path p P). unfold save_and_reload. rewrite W.
    split; reflexivity.
  - intros content E. rewrite (Remove_eq w path p content P E).
    unfold save_and_reload. rewrite W. split; reflexivity.
Qed.

Lemma write_failure_skips_reload_witness :
  fst (share.Add "/srv/lib" world_read_only)
    = Some "open /etc/exports: permission denied" /\
  trace (snd (share.Add "/srv/lib" world_read_only))
    = trace world_read_only ++
      [EvWriteFile EXPORTSFILE
         (Add_data world_read_only (mkProvider "10.0.2.2") "/srv/lib")].
Proof.
  exact (proj1 (write_failure_skips_reload world_read_only "/srv/lib"
                  (mkProvider "10.0.2.2")
                  "open /etc/exports: permission denied" eq_refl eq_refl)).
Defined.

End Failures.

Section NoRollback.

(** X3. The file is written before the reload and never restored: when the
    write succeeds, [Add] and [Remove] return what [reloadServer] returns
    in the world with the new file, and the file holds the new text
    afterwards whether the reload failed or not. *)
Theorem reload_failure_keeps_new_file
    (w : World) (path : string) (p : Provider) :
  provider w = inl p -> write_error w = None ->
  (let data := Add_data w p path in
   fst (share.Add path w)
     = fst (share.reloadServer
              (store data (record (EvWriteFile EXPORTSFILE data) w))) /\
   exports (snd (share.Add path w)) = inl data) /\
  (forall content : string, exports w = inl content ->
   let data := Remove_data w p path content in
   fst (share.Remove path w)
     = fst (share.reloadServer
              (store data (record (EvWriteFile EXPORTSFILE data) w))) /\
   exports (snd (share.Remove path w)) = inl data).
Proof.
  intros P W. split.
  - intros data. split.
    + rewrite (Add_eq w path p P). unfold save_and_reload. rewrite W.
      reflexivity.
    + apply (Add_step w path p P W).
  - intros content E data. split.
    + rewrite (Remove_eq w path p content P E). unfold save_and_reload.
      rewrite W. reflexivity.
    + apply (Remove_step w path p content P E W).
Qed.

Lemma reload_failure_keeps_new_file_witness :
  fst (share.Add "/srv/app" world_check_fails)
    = Some "checkexports: exports:1: unknown option exit status 1" /\
  exports (snd (share.Add "/srv/app" world_check_fails))
    = inl (newline +:+ "/srv/app " +:+ rule_501_20).
Proof.
  exact (proj1 (reload_failure_keeps_new_file world_check_fails "/srv/app"
                  (mkProvider "10.0.2.2") eq_refl eq_refl)).
Defined.

End NoRollback.

Section RoundTrips.

Lemma Exists_eq (path : string) (w : World) :
  fst (share.Exists path w) =
  match exports w with
  | inl b => strings.Contains b (path +:+ " ")
  | inr _ => false
  end.
Proof.
  unfold share.Exists, mbind, M_bind, ioutil.ReadFile, gets.
  destruct (exports w); reflexivity.
Qed.

Lemma Remove_data_no_match (w : World) (p : Provider) (path content : string) :
  (forall l : string, l ∈ strings.Split content newline ->
                      strings.Contains l (lineCheck_of p w) = false) ->
  Remove_data w p path content = content.
Proof.
  intros N. unfold Remove_data. rewrite (Remove_loop_none w path _ _ N).
  unfold newline. apply Join_Split.
Qed.

(** X4. On a file in which no line contains the [lineCheck], [Remove] of
    any path hands the text of the file back to the write, byte for byte
    (split at the line breaks and joined again). *)
Theorem Remove_without_rule_keeps_text
    (w : World) (path : string) (p : Provider) (content : string) :
  provider w = inl p -> exports w = inl content ->
  (forall l : string, l ∈ strings.Split content newline ->
                      strings.Contains l (lineCheck_of p w) = false) ->
  (exists rest : list Event,
     trace (snd (share.Remove path w))
       = trace w ++ EvWriteFile EXPORTSFILE content :: rest) /\
  (write_error w = None -> exports (snd (share.Remove path w)) = inl content).
Proof.
  intros P E N. rewrite (Remove_eq w path p content P E).
  rewrite (Remove_data_no_match w p path content N). split.
  - apply save_and_reload_trace.
  - apply save_and_reload_exports.
Qed.

Lemma Remove_without_rule_keeps_text_witness :
  exports (snd (share.Remove "/srv/app"
                  (world_of (inl "/x 10.0.2.9 -alldirs -mapall=501:20") [] 20)))
    = inl "/x 10.0.2.9 -alldirs -mapall=501:20".
Proof.
  refine (proj2 (Remove_without_rule_keeps_text
                   (world_of (inl "/x 10.0.2.9 -alldirs -mapall=501:20") [] 20)
                   "/srv/app" (mkProvider "10.0.2.2")
                   "/x 10.0.2.9 -alldirs -mapall=501:20" eq_refl eq_refl _)
                eq_refl).
  intros l H. apply list_elem_of_singleton in H. subst l. reflexivity.
Defined.

(** X5. After [Add(path)] on a file in which no line contains the
    [lineCheck] (or on a missing file), [Exists(path)] is true, provided
    the write succeeded. *)
Theorem Add_then_Exists (w : World) (path : string) (p : Provider) :
  provider w = inl p -> write_error w = None ->
  (forall l : string, l ∈ strings.Split (existing w) newline ->
                      strings.Contains l (lineCheck_of p w) = false) ->
  fst (share.Exists path (snd (share.Add path w))) = true.
Proof.
  intros P W N. rewrite Exists_eq.
  rewrite (proj1 (Add_step w path p P W)), (Add_data_no_match w p path N).
  apply Contains_occurs. exists (existing w +:+ newline), (lineCheck_of p w).
  rewrite !string_app_assoc. reflexivity.
Qed.

Lemma Add_then_Exists_witness :
  fst (share.Exists "/srv/app" (snd (share.Add "/srv/app" world_unreadable)))
    = true.
Proof.
  refine (Add_then_Exists world_unreadable "/srv/app" (mkProvider "10.0.2.2")
            eq_refl eq_refl _).
  intros l H. apply list_elem_of_singleton in H. subst l. reflexivity.
Defined.

End RoundTrips.

Section SelectorLines.

Variable w : World.
Variables path lineCheck : string.

(** What [cleanLine] renders ends with the [lineCheck], so it contains
    it. *)
Lemma cleanLine_Contains (line : string) :
  strings.Contains (share.cleanLine w line lineCheck) lineCheck = true.
Proof.
  unfold share.cleanLine, share.sprintf_s_s.
  rewrite <- string_app_assoc. apply Contains_app_r.
Qed.

Lemma others_cons_other (l : string) (lines : list string) :
  strings.Contains l lineCheck = false ->
  others lineCheck (l :: lines) = l :: others lineCheck lines /\
  matching lineCheck (l :: lines) = matching lineCheck lines.
Proof.
  intros H. unfold others, matching. rewrite !filter_cons.
  destruct (decide (strings.Contains l lineCheck = false)); [|contradiction].
  destruct (decide (strings.Contains l lineCheck = true)); [congruence|].
  split; reflexivity.
Qed.

Lemma others_cons_matching (l : string) (lines : list string) :
  strings.Contains l lineCheck = true ->
  others lineCheck (l :: lines) = others lineCheck lines /\
  matching lineCheck (l :: lines) = l :: matching lineCheck lines.
Proof.
  intros H. unfold others, matching. rewrite !filter_cons.
  destruct (decide (strings.Contains l lineCheck = false)); [congruence|].
  destruct (decide (strings.Contains l lineCheck = true)); [|contradiction].
  split; reflexivity.
Qed.

Lemma Add_loop_selector (lines : list string) :
  let r := share.Add_loop w path lineCheck lines in
  others lineCheck (snd r) = others lineCheck lines /\
  length (matching lineCheck (snd r)) = length (matching lineCheck lines) /\
  (fst r = false -> matching lineCheck lines = []) /\
  (fst r = true -> matching lineCheck lines <> []).
Proof.
  induction lines as [|l lines IH]; [simpl; repeat split; done|].
  intros r. subst r. rewrite Add_loop_cons.
  destruct (strings.Contains l lineCheck) eqn:C; simpl.
  - destruct (others_cons_matching l lines C) as [O M].
    destruct (others_cons_matching (share.cleanLine w (share.sprintf_s_s path l) lineCheck)
                lines (cleanLine_Contains _)) as [O' M'].
    rewrite O, M, O', M'. repeat split; try done.
  - destruct IH as (IO & IM & IF & IT).
    destruct (others_cons_other l lines C) as [O M].
    destruct (others_cons_other l (snd (share.Add_loop w path lineCheck lines)) C)
      as [O' M'].
    rewrite O, M, O', M', IO, IM. repeat split; assumption.
Qed.

(** X7. [Add] never makes a second line for a selector: the lines that do
    not contain the [lineCheck] are saved as they are and in order, and the
    number of saved lines that contain it is the number there was, or one
    when there was none. *)
Theorem Add_one_line_per_selector (lines : list string) :
  let saved := share.Add_lines w path lineCheck lines in
  others lineCheck saved = others lineCheck lines /\
  length (matching lineCheck saved)
    = Nat.max 1 (length (matching lineCheck lines)).
Proof.
  intros saved. subst saved. unfold share.Add_lines.
  pose proof (Add_loop_selector lines) as (O & M & F & T). simpl in O, M, F, T.
  destruct (share.Add_loop w path lineCheck lines) as [[|] lines']; simpl in *.
  - split; [exact O|]. rewrite M.
    destruct (matching lineCheck lines); [exfalso; apply T; reflexivity|].
    simpl. lia.
  - rewrite (F eq_refl) in *. unfold others, matching in *.
    rewrite !filter_app, O.
    assert (C : strings.Contains (share.sprintf_s_s path lineCheck) lineCheck = true)
      by (unfold share.sprintf_s_s; rewrite <- string_app_assoc; apply Contains_app_r).
    rewrite !filter_cons, !filter_nil.
    destruct (decide (strings.Contains _ lineCheck = false)); [congruence|].
    destruct (decide (strings.Contains _ lineCheck = true)); [|contradiction].
    rewrite app_nil_r, length_app, M. split; reflexivity.
Qed.

Lemma Remove_loop_step (l : string) (rest : list string) :
  share.Remove_loop w path lineCheck (l :: rest) [] =
  (if strings.Contains l lineCheck
   then if bool_decide (strings.Replace1 l (path +:+ " ") "" <> lineCheck)
        then [share.cleanLine w (strings.Replace1 l (path +:+ " ") "") lineCheck]
        else []
   else [l]) ++ share.Remove_loop w path lineCheck rest [].
Proof. rewrite Remove_loop_cons, Remove_loop_acc. reflexivity. Qed.

(** X6. [Remove] saves the lines that do not contain the [lineCheck] as
    they are and in order; of the lines that contain it, it saves at most
    as many as there were, each as [cleanLine] of the line without the
    first ["<path> "]; it never saves more lines than it read. *)
Theorem Remove_keeps_other_lines (lines : list string) :
  let saved := share.Remove_loop w path lineCheck lines [] in
  others lineCheck saved = others lineCheck lines /\
  (length (matching lineCheck saved) <= length (matching lineCheck lines))%nat /\
  (length saved <= length lines)%nat /\
  (forall l : string, l ∈ matching lineCheck saved ->
     exists l0 : string,
       l0 ∈ matching lineCheck lines /\
       l = share.cleanLine w (strings.Replace1 l0 (path +:+ " ") "") lineCheck).
Proof.
  induction lines as [|l lines IH]; [simpl; repeat split; try done|].
  { intros l H. inversion H. }
  intros saved. subst saved. rewrite Remove_loop_step.
  destruct IH as (IO & IM & IL & IC).
  destruct (strings.Contains l lineCheck) eqn:C.
  - destruct (others_cons_matching l lines C) as [O M]. rewrite O, M.
    destruct (bool_decide _); simpl app.
    + destruct (others_cons_matching
                  (share.cleanLine w (strings.Replace1 l (path +:+ " ") "") lineCheck)
                  (share.Remove_loop w path lineCheck lines [])
                  (cleanLine_Contains _)) as [O' M'].
      rewrite O', M'. simpl. repeat split; [exact IO|lia|lia|].
      intros x [->|H]%elem_of_cons.
      * exists l. split; [apply list_elem_of_here|reflexivity].
      * destruct (IC x H) as (l0 & H0 & E). exists l0.
        split; [apply list_elem_of_further, H0|exact E].
    + simpl. repeat split; [exact IO|lia|lia|].
      intros x H. destruct (IC x H) as (l0 & H0 & E). exists l0.
      split; [apply list_elem_of_further, H0|exact E].
  - destruct (others_cons_other l lines C) as [O M].
    destruct (others_cons_other l (share.Remove_loop w path lineCheck lines []) C)
      as [O' M'].
    simpl app. rewrite O, M, O', M', IO. simpl. repeat split; [exact IM|lia|exact IC].
Qed.

End SelectorLines.

Section ReloadOutcome.

(** X8. Outside of tests [reloadServer] returns no error exactly when its
    three steps all succeed, and then it has run the three of them;
    whatever happens, the commands it runs are a beginning of enable, check,
    update, in this order, and nothing else is run. *)
Theorem reloadServer_nil_iff_all_steps (w : World) :
  testing w = false ->
  (fst (share.reloadServer w) = None <->
   exit_err (enable_out w) = None /\ exit_err (check_out w) = None /\
   exit_err (update_out w) = None) /\
  (exists new : list Event,
     trace (snd (share.reloadServer w)) = trace w ++ new /\
     filter is_command new `prefix_of` [step_enable; step_check; step_update] /\
     (fst (share.reloadServer w) = None ->
      filter is_command new = [step_enable; step_check; step_update])).
Proof.
  intros T. destruct (reloadServer_by_cases w) as (C1 & C2 & C3 & C4).
  destruct (exit_err (enable_out w)) as [e|] eqn:E.
  { destruct (C1 T e eq_refl) as [R Tr]. rewrite R, Tr. split.
    - split; [discriminate|]. intros (H & _). discriminate.
    - eexists. split; [reflexivity|]. split; [|discriminate].
      exists [step_check; step_update]. reflexivity. }
  destruct (exit_err (check_out w)) as [e|] eqn:C.
  { destruct (C2 T eq_refl e eq_refl) as [R Tr]. rewrite R, Tr. split.
    - split; [discriminate|]. intros (_ & H & _). discriminate.
    - eexists. split; [reflexivity|]. split; [|discriminate].
      exists [step_update]. reflexivity. }
  destruct (exit_err (update_out w)) as [e|] eqn:U.
  { destruct (C3 T eq_refl eq_refl e eq_refl) as [R Tr]. rewrite R, Tr. split.
    - split; [discriminate|]. intros (_ & _ & H). discriminate.
    - eexists. split; [reflexivity|]. split; [|discriminate].
      exists []. reflexivity. }
  destruct (C4 T eq_refl eq_refl eq_refl) as [R Tr]. rewrite R, Tr. split.
  - split; [intros _; repeat split|reflexivity].
  - eexists. split; [reflexivity|]. split; [exists []|intros _]; reflexivity.
Qed.

Lemma reloadServer_nil_iff_all_steps_witness :
  fst (share.reloadServer world_check_fails) = None <->
  exit_err (enable_out world_check_fails) = None /\
  exit_err (check_out world_check_fails) = None /\
  exit_err (update_out world_check_fails) = None.
Proof.
  exact (proj1 (reloadServer_nil_iff_all_steps world_check_fails eq_refl)).
Defined.

End ReloadOutcome.

(** * Lines in rendered form *)

Section Tokens.

Lemma string_app_inv_tail (a b c : string) : a +:+ c = b +:+ c -> a = b.
Proof.
  revert b. induction a as [|x a IH]; intros b H.
  - destruct b as [|y b]; [reflexivity|].
    apply (f_equal String.length) in H. rewrite string_app_nil_l in H.
    rewrite string_length_app in H. simpl in H. lia.
  - destruct b as [|y b].
    + apply (f_equal String.length) in H. rewrite string_app_nil_l in H.
      rewrite string_length_app in H. simpl in H. lia.
    + rewrite !string_app_cons in H. injection H as -> H. f_equal. apply IH, H.
Qed.

Lemma Cut_cons (c : ascii) (s sep : string) :
  strings.Cut (String c s) sep =
  if strings.HasPrefix (String c s) sep
  then Some ("", strings.drop_bytes (String.length sep) (String c s))
  else match strings.Cut s sep with
       | Some (before, after) => Some (String c before, after)
       | None => None
       end.
Proof. reflexivity. Qed.

(** [last_only]: every occurrence of [sub] in [s] is the one at the end. *)
Lemma last_only_spec (sub s : string) :
  last_only sub s = true ->
  exists x : string, s = x +:+ sub /\ strings.Cut s sub = Some (x, "") /\
    forall b a : string, s = b +:+ sub +:+ a -> a = "".
Proof.
  unfold last_only. destruct (strings.Cut s sub) as [[x [|c a]]|] eqn:C;
    try discriminate.
  intros _. pose proof (Cut_Some _ _ _ _ C) as E. rewrite string_app_nil_r in E.
  exists x. split; [exact E|]. split; [reflexivity|].
  intros b a E'. pose proof (Cut_leftmost _ _ _ _ _ _ C E') as L.
  apply (f_equal String.length) in E'. rewrite E in E'.
  rewrite !string_length_app in E'. destruct a; [reflexivity|simpl in E'; lia].
Qed.

Lemma Replace1_last_only (x sub : string) :
  last_only sub (x +:+ sub) = true -> strings.Replace1 (x +:+ sub) sub "" = x.
Proof.
  intros H. destruct (last_only_spec _ _ H) as (y & E & C & _).
  apply string_app_inv_tail in E. subst y.
  unfold strings.Replace1. rewrite C, string_app_nil_l. apply string_app_nil_r.
Qed.

Lemma Contains_space_cons (c : ascii) (t : string) :
  strings.Contains (String c t) " " = Ascii.eqb c " " || strings.Contains t " ".
Proof.
  unfold strings.Contains. rewrite Cut_cons. simpl strings.HasPrefix.
  destruct (Ascii.eqb c " "); [reflexivity|].
  destruct (strings.Cut t " ") as [[b a]|]; reflexivity.
Qed.

Lemma no_space_cons (c : ascii) (t : string) :
  no_space (String c t) = true -> c <> " "%char /\ no_space t = true.
Proof.
  unfold no_space. rewrite Contains_space_cons.
  destruct (Ascii.eqb_spec c " ") as [->|N]; [discriminate|].
  simpl. intros H. split; assumption.
Qed.

Lemma no_space_occurs (t : string) : no_space t = true -> ~ occurs_in " " t.
Proof.
  unfold no_space. intros H. apply Contains_false.
  destruct (strings.Contains t " "); [discriminate|reflexivity].
Qed.

Lemma Split_token (t : string) : no_space t = true -> strings.Split t " " = [t].
Proof. intros H. apply Split_no_sep, no_space_occurs, H. Qed.

(** Joining tokens with spaces and splitting at the spaces gives the
    tokens back. *)
Lemma Split_Join_tokens (ps : list string) :
  ps <> [] -> forallb no_space ps = true ->
  strings.Split (strings.Join ps " ") " " = ps.
Proof.
  induction ps as [|t ps IH]; intros NE H; [contradiction|].
  simpl in H. apply andb_prop in H as [Ht Hps].
  destruct ps as [|t2 ps]; [apply Split_token, Ht|].
  rewrite Join_cons. change " " with (String " "%char "") at 1 3.
  rewrite Split_char_app.
  change (String " "%char "") with " ".
  rewrite (Split_token t Ht), IH by (discriminate || exact Hps). reflexivity.
Qed.

Lemma goodPaths_app (w : World) (l1 l2 : list string) :
  share.goodPaths w (l1 ++ l2) = share.goodPaths w l1 ++ share.goodPaths w l2.
Proof.
  induction l1 as [|t l1 IH]; [reflexivity|].
  rewrite <- app_comm_cons, !goodPaths_cons, IH.
  destruct (os.Stat w t) as [[|]|]; reflexivity.
Qed.

Lemma goodPaths_empty_token (w : World) (ps : list string) :
  share.goodPaths w ("" :: ps) = share.goodPaths w ps.
Proof. reflexivity. Qed.

(** The tokens [cleanLine] sees in a rendered line are its paths and an
    empty token. *)
Lemma linePaths_rendered (ps : list string) (lc : string) :
  forallb no_space ps = true -> last_only lc (render_line ps lc) = true ->
  share.linePaths (render_line ps lc) lc
    = match ps with [] => [""] | _ => ps end ++ [""].
Proof.
  intros T L. unfold share.linePaths, render_line in *.
  rewrite <- string_app_assoc in *. rewrite (Replace1_last_only _ _ L).
  rewrite <- (string_app_nil_r (strings.Join ps " " +:+ " ")).
  rewrite string_app_assoc. change " " with (String " "%char "") at 2 3.
  rewrite Split_char_app. change (String " "%char "") with " ".
  destruct ps as [|t ps]; [reflexivity|].
  rewrite Split_Join_tokens by (discriminate || exact T). reflexivity.
Qed.

End Tokens.

Section RenderedLines.

Variable w : World.

Lemma goodPaths_all_dirs (ps : list string) :
  (forall t : string, t ∈ ps -> os.Stat w t = inl true) ->
  share.goodPaths w ps = ps.
Proof.
  induction ps as [|t ps IH]; intros H; [reflexivity|].
  rewrite goodPaths_cons, (H t) by apply list_elem_of_here.
  rewrite IH; [reflexivity|]. intros t' Ht'. apply H, list_elem_of_further, Ht'.
Qed.

Lemma cleanLine_rendered (ps : list string) (lc : string) :
  forallb no_space ps = true -> last_only lc (render_line ps lc) = true ->
  share.cleanLine w (render_line ps lc) lc = render_line (share.goodPaths w ps) lc.
Proof.
  intros T L. unfold share.cleanLine. rewrite (linePaths_rendered ps lc T L).
  rewrite goodPaths_app. change (share.goodPaths w [""]) with (@nil string).
  rewrite app_nil_r. destruct ps; reflexivity.
Qed.

(** X9. On a line in rendered form, ["<paths joined by spaces> <lineCheck>"]
    with paths free of spaces and the [lineCheck] occurring at the end
    only, [cleanLine] gives the rendered form of the paths that are
    directories, in order; when all of them are directories the line comes
    back unchanged. *)
Theorem cleanLine_rendered_line (ps : list string) (lc : string) :
  forallb no_space ps = true -> last_only lc (render_line ps lc) = true ->
  share.cleanLine w (render_line ps lc) lc
    = render_line (share.goodPaths w ps) lc /\
  ((forall t : string, t ∈ ps -> os.Stat w t = inl true) ->
   share.cleanLine w (render_line ps lc) lc = render_line ps lc).
Proof.
  intros T L. split; [apply cleanLine_rendered; assumption|].
  intros D. rewrite (cleanLine_rendered ps lc T L), (goodPaths_all_dirs ps D).
  reflexivity.
Qed.

Lemma render_line_Contains (ps : list string) (lc : string) :
  strings.Contains (render_line ps lc) lc = true.
Proof. unfold render_line. rewrite <- string_app_assoc. apply Contains_app_r. Qed.

Lemma sprintf_rendered (path : string) (ps : list string) (lc : string) :
  share.sprintf_s_s path (render_line ps lc)
    = render_line (path :: match ps with [] => [""] | _ => ps end) lc.
Proof.
  unfold share.sprintf_s_s, render_line. destruct ps as [|t ps].
  - change (strings.Join [path; ""] " ") with (path +:+ " " +:+ "").
    rewrite !string_app_assoc. reflexivity.
  - rewrite Join_cons, !string_app_assoc. reflexivity.
Qed.

Lemma Add_rendered (path lc : string) (ps : list string) :
  no_space path = true -> forallb no_space ps = true ->
  last_only lc (path +:+ " " +:+ render_line ps lc) = true ->
  share.cleanLine w (share.sprintf_s_s path (render_line ps lc)) lc
    = render_line (share.goodPaths w (path :: ps)) lc.
Proof.
  intros P T L. change (path +:+ " " +:+ render_line ps lc)
    with (share.sprintf_s_s path (render_line ps lc)) in L.
  rewrite sprintf_rendered in *. rewrite cleanLine_rendered.
  - destruct ps; [|reflexivity]. rewrite !goodPaths_cons.
    destruct (os.Stat w path) as [[|]|]; reflexivity.
  - simpl. rewrite P. destruct ps; [reflexivity|exact T].
  - exact L.
Qed.

(** X10. [Add] on a table whose first line with the [lineCheck] is in
    rendered form saves that line as the rendered form of the path followed
    by the old paths, each kept when it is a directory: a path that is a
    directory goes in front even when the line holds it already (nothing
    is deduplicated), and a path that is not is not added. *)
Theorem Add_rendered_line
    (path lc : string) (pre : list string) (ps : list string) (post : list string) :
  (forall l : string, l ∈ pre -> strings.Contains l lc = false) ->
  no_space path = true -> forallb no_space ps = true ->
  last_only lc (path +:+ " " +:+ render_line ps lc) = true ->
  share.Add_lines w path lc (pre ++ render_line ps lc :: post)
    = pre ++
      render_line (match os.Stat w path with
                   | inl true => path :: share.goodPaths w ps
                   | _ => share.goodPaths w ps
                   end) lc :: post.
Proof.
  intros N P T L. unfold share.Add_lines.
  rewrite (Add_loop_first w path lc pre _ post N (render_line_Contains ps lc)).
  rewrite (Add_rendered path lc ps P T L), goodPaths_cons. reflexivity.
Qed.

End RenderedLines.

Lemma Add_rendered_line_witness :
  share.Add_lines (world_of (inl "") ["/srv/app"] 20) "/srv/app" rule_501_20
    ([] ++ render_line ["/srv/app"; "/gone"] rule_501_20 :: [])
  = [render_line ["/srv/app"; "/srv/app"] rule_501_20].
Proof.
  exact (Add_rendered_line (world_of (inl "") ["/srv/app"] 20)
           "/srv/app" rule_501_20 [] ["/srv/app"; "/gone"] []
           (fun l H => False_ind _ (proj1 (elem_of_nil l) H))
           eq_refl eq_refl eq_refl).
Defined.

Lemma cleanLine_rendered_line_witness :
  share.cleanLine (world_of (inl "") ["/srv/app"] 20)
    (render_line ["/srv/app"; "/gone"] rule_501_20) rule_501_20
  = render_line ["/srv/app"] rule_501_20.
Proof.
  exact (proj1 (cleanLine_rendered_line (world_of (inl "") ["/srv/app"] 20)
                  ["/srv/app"; "/gone"] rule_501_20 eq_refl eq_refl)).
Defined.

(** * [Remove] on lines in rendered form *)

Section RemoveRendered.

Variable w : World.
Variable path : string.
Hypothesis path_token : no_space path = true.

Lemma Contains_space_app (a b : string) :
  strings.Contains (a +:+ b) " " = strings.Contains a " " || strings.Contains b " ".
Proof.
  induction a as [|c a IH].
  - rewrite string_app_nil_l. reflexivity.
  - rewrite string_app_cons, !Contains_space_cons, IH. apply orb_assoc.
Qed.

Lemma no_space_app (a b : string) :
  no_space a = true -> no_space b = true -> no_space (a +:+ b) = true.
Proof.
  unfold no_space. rewrite Contains_space_app.
  destruct (strings.Contains a " "), (strings.Contains b " "); done.
Qed.

(** A token followed by a space begins with ["<p> "] only when it is
    [p]. *)
Lemma HasPrefix_cons (c d : ascii) (s q : string) :
  strings.HasPrefix (String c s) (String d q)
    = if Ascii.eqb c d then strings.HasPrefix s q else false.
Proof. reflexivity. Qed.

Lemma HasPrefix_token_eq (p u X : string) :
  no_space p = true -> no_space u = true ->
  strings.HasPrefix (u +:+ " " +:+ X) (p +:+ " ") = true -> u = p.
Proof.
  revert u. induction p as [|c p IH]; intros u P U H.
  - destruct u as [|d u]; [reflexivity|].
    apply no_space_cons in U as [U _].
    repeat (rewrite string_app_cons in H || rewrite string_app_nil_l in H).
    rewrite HasPrefix_cons in H.
    destruct (Ascii.eqb_spec d " "); [contradiction|discriminate].
  - apply no_space_cons in P as [P P'].
    destruct u as [|d u].
    + repeat (rewrite string_app_cons in H || rewrite string_app_nil_l in H).
      rewrite HasPrefix_cons in H.
      destruct (Ascii.eqb_spec " " c) as [<-|]; [contradiction|discriminate].
    + apply no_space_cons in U as [_ U'].
      rewrite !string_app_cons, HasPrefix_cons in H.
      destruct (Ascii.eqb_spec d c) as [->|]; [|discriminate].
      f_equal. apply IH; assumption.
Qed.

Lemma HasPrefix_token (u X : string) :
  no_space u = true ->
  strings.HasPrefix (u +:+ " " +:+ X) (path +:+ " ") = true -> u = path.
Proof. apply HasPrefix_token_eq, path_token. Qed.

Lemma ends_with_unfold (suffix t : string) :
  ends_with suffix t =
  if String.eqb t suffix then true
  else match t with
       | EmptyString => false
       | String _ t' => ends_with suffix t'
       end.
Proof. destruct t; reflexivity. Qed.

Lemma ends_with_false (t : string) :
  ends_with path t = false ->
  t <> path /\ match t with
               | EmptyString => True
               | String _ t' => ends_with path t' = false
               end.
Proof.
  rewrite ends_with_unfold.
  destruct (String.eqb_spec t path); [discriminate|].
  destruct t; auto.
Qed.

(** No occurrence of ["<path> "] begins in a token that does not end with
    [path]. *)
Lemma Cut_skip_token (t X : string) :
  no_space t = true -> ends_with path t = false ->
  strings.Cut (t +:+ " " +:+ X) (path +:+ " ") =
  match strings.Cut X (path +:+ " ") with
  | Some (b, a) => Some (t +:+ " " +:+ b, a)
  | None => None
  end.
Proof.
  induction t as [|c t IH]; intros T E.
  - apply ends_with_false in E as [E _].
    rewrite string_app_nil_l, string_app_cons, string_app_nil_l, Cut_cons.
    destruct (strings.HasPrefix (String " " X) (path +:+ " ")) eqn:H.
    { exfalso. apply E. apply (HasPrefix_token "" X); [reflexivity|exact H]. }
    destruct (strings.Cut X (path +:+ " ")) as [[b a]|]; reflexivity.
  - apply ends_with_false in E as [E E'].
    pose proof (no_space_cons _ _ T) as [_ T'].
    rewrite string_app_cons, Cut_cons.
    destruct (strings.HasPrefix (String c (t +:+ " " +:+ X)) (path +:+ " ")) eqn:H.
    { exfalso. apply E. apply (HasPrefix_token (String c t) X); [exact T|exact H]. }
    rewrite (IH T' E').
    destruct (strings.Cut X (path +:+ " ")) as [[b a]|]; reflexivity.
Qed.

Lemma Cut_spaced (pre : list string) (R : string) :
  forallb no_space pre = true ->
  forallb (fun t => negb (ends_with path t)) pre = true ->
  strings.Cut (spaced pre +:+ path +:+ " " +:+ R) (path +:+ " ")
    = Some (spaced pre, R).
Proof.
  induction pre as [|t pre IH]; intros T E.
  - simpl spaced. rewrite string_app_nil_l, <- string_app_assoc. apply Cut_prefix.
  - simpl in T, E. apply andb_prop in T as [T T']. apply andb_prop in E as [E E'].
    apply negb_true_iff in E. simpl spaced.
    rewrite !string_app_assoc, (Cut_skip_token t _ T E), (IH T' E').
    reflexivity.
Qed.

Lemma spaced_app (a b : list string) : spaced (a ++ b) = spaced a +:+ spaced b.
Proof.
  induction a as [|t a IH]; [reflexivity|].
  simpl. rewrite IH, !string_app_assoc. reflexivity.
Qed.

Lemma render_line_spaced (ps : list string) (lc : string) :
  ps <> [] -> render_line ps lc = spaced ps +:+ lc.
Proof.
  unfold render_line. induction ps as [|t ps IH]; intros NE; [contradiction|].
  destruct ps as [|t2 ps].
  - simpl. rewrite string_app_nil_r, !string_app_assoc. reflexivity.
  - rewrite Join_cons. simpl spaced. simpl spaced in IH.
    rewrite !string_app_assoc, IH by discriminate.
    rewrite !string_app_assoc. reflexivity.
Qed.

Lemma render_line_longer (ps : list string) (lc : string) :
  ps <> [] -> render_line ps lc <> lc.
Proof.
  intros NE E. rewrite (render_line_spaced ps lc NE) in E.
  apply (f_equal String.length) in E. rewrite string_length_app in E.
  destruct ps as [|t ps]; [contradiction|]. simpl in E.
  rewrite string_length_app in E. simpl in E. lia.
Qed.

(** X11. [Remove(path)] on a line in rendered form that holds [path] as a
    token, with no token before it ending with [path] and other paths
    left, saves the rendered form of the other paths that are directories:
    the first [path] token is taken out and the rest is validated. *)
Theorem Remove_rendered_line (lc : string) (pre post : list string) :
  forallb no_space pre = true -> forallb no_space post = true ->
  forallb (fun t => negb (ends_with path t)) pre = true ->
  pre ++ post <> [] ->
  last_only lc (render_line (pre ++ post) lc) = true ->
  share.Remove_loop w path lc [render_line (pre ++ path :: post) lc] []
    = [render_line (share.goodPaths w (pre ++ post)) lc].
Proof.
  intros T T' E NE L. rewrite Remove_loop_cons, render_line_Contains.
  assert (R : strings.Replace1 (render_line (pre ++ path :: post) lc)
                (path +:+ " ") "" = render_line (pre ++ post) lc).
  { rewrite !render_line_spaced by (exact NE || (destruct pre; discriminate)).
    rewrite !spaced_app. simpl spaced. rewrite !string_app_assoc.
    unfold strings.Replace1. rewrite (Cut_spaced pre _ T E).
    rewrite string_app_nil_l. reflexivity. }
  rewrite R, bool_decide_eq_true_2 by (apply render_line_longer, NE).
  rewrite cleanLine_rendered; [reflexivity| |exact L].
  rewrite forallb_app, T, T'. reflexivity.
Qed.

End RemoveRendered.

Lemma Remove_rendered_line_witness :
  share.Remove_loop (world_of (inl "") ["/srv/lib"] 20) "/srv/app" rule_501_20
    [render_line (["/srv/lib"] ++ "/srv/app" :: ["/gone"]) rule_501_20] []
  = [render_line ["/srv/lib"] rule_501_20].
Proof.
  refine (Remove_rendered_line (world_of (inl "") ["/srv/lib"] 20) "/srv/app"
            eq_refl rule_501_20 ["/srv/lib"] ["/gone"]
            eq_refl eq_refl eq_refl _ eq_refl).
  discriminate.
Defined.

Section RemoveInsideToken.

Variable w : World.
Variables path u : string.
Hypothesis path_token : no_space path = true.
Hypothesis u_token : no_space u = true.

Lemma Cut_inside_token (v X : string) :
  no_space v = true ->
  strings.Cut (v +:+ path +:+ " " +:+ X) (path +:+ " ") = Some (v, X).
Proof.
  induction v as [|c v IH]; intros V.
  - rewrite string_app_nil_l, <- string_app_assoc. apply Cut_prefix.
  - pose proof (no_space_cons _ _ V) as [_ V'].
    rewrite string_app_cons, Cut_cons.
    destruct (strings.HasPrefix _ (path +:+ " ")) eqn:H.
    { exfalso. rewrite <- string_app_cons, <- string_app_assoc in H.
      apply (HasPrefix_token_eq path _ X path_token) in H.
      - apply (f_equal String.length) in H.
        rewrite string_length_app in H. simpl in H. lia.
      - apply no_space_app; assumption. }
    rewrite (IH V'). reflexivity.
Qed.

Lemma render_line_glue (t : string) (r : list string) (lc : string) :
  u +:+ render_line (t :: r) lc = render_line ((u +:+ t) :: r) lc.
Proof.
  unfold render_line. destruct r as [|t2 r].
  - simpl strings.Join. rewrite !string_app_assoc. reflexivity.
  - rewrite !Join_cons, !string_app_assoc. reflexivity.
Qed.

(** X12. [Remove(path)] takes the first ["<path> "] out of the line
    wherever it is: when the first token of a rendered line is a longer
    path that ends with [path], the end of that token goes and what is left
    of it is glued to the next token (or stands alone when there is none),
    and that new token is kept when it is a directory. *)
Theorem Remove_path_ending_longer_path (lc : string) (ps : list string) :
  u <> "" -> forallb no_space ps = true ->
  last_only lc (u +:+ match ps with [] => lc | _ => render_line ps lc end) = true ->
  share.Remove_loop w path lc [render_line ((u +:+ path) :: ps) lc] []
    = [render_line
         (share.goodPaths w
            match ps with [] => [u] | t :: r => (u +:+ t) :: r end) lc].
Proof.
  intros NE T L. rewrite Remove_loop_cons, render_line_Contains.
  assert (R : strings.Replace1 (render_line ((u +:+ path) :: ps) lc)
                (path +:+ " ") ""
              = u +:+ match ps with [] => lc | _ => render_line ps lc end).
  { rewrite render_line_spaced by discriminate. simpl spaced.
    rewrite !string_app_assoc. unfold strings.Replace1.
    rewrite (Cut_inside_token u _ u_token), string_app_nil_l.
    destruct ps as [|t r]; [reflexivity|].
    rewrite render_line_spaced by discriminate. reflexivity. }
  rewrite R. rewrite bool_decide_eq_true_2.
  - cbn [share.Remove_loop app]. f_equal. destruct ps as [|t r].
    + unfold share.cleanLine, share.linePaths.
      rewrite (Replace1_last_only u lc L), (Split_token u u_token).
      reflexivity.
    + rewrite render_line_glue in *. apply cleanLine_rendered; [|exact L].
      simpl in T. apply andb_prop in T as [T T']. simpl.
      rewrite (no_space_app u t u_token T), T'. reflexivity.
  - intros E. destruct ps as [|t r].
    + apply (f_equal String.length) in E. rewrite string_length_app in E.
      destruct u; [contradiction|simpl in E; lia].
    + rewrite render_line_glue in E. revert E.
      apply render_line_longer. discriminate.
Qed.

End RemoveInsideToken.

Lemma Remove_path_ending_longer_path_witness :
  share.Remove_loop (world_of (inl "") ["/srv"] 20) "/app" rule_501_20
    [render_line [("/srv" +:+ "/app")] rule_501_20] []
  = [render_line ["/srv"] rule_501_20].
Proof.
  refine (Remove_path_ending_longer_path (world_of (inl "") ["/srv"] 20)
            "/app" "/srv" eq_refl eq_refl rule_501_20 [] _ eq_refl eq_refl).
  discriminate.
Defined.

Section AddTwice.

(** X13. Two [Add]s in a row on a file without a line for the selector make
    one line for it: the text of the file, a line break, and the rendered
    form of the second path followed by the first, each kept when it is a
    directory.  (Writes succeeding; paths free of spaces and line breaks.) *)
Theorem Add_twice_one_line (w : World) (P Q : string) (p : Provider) :
  provider w = inl p -> write_error w = None ->
  (forall l : string, l ∈ strings.Split (existing w) newline ->
                      strings.Contains l (lineCheck_of p w) = false) ->
  strings.Contains (P +:+ " " +:+ lineCheck_of p w) newline = false ->
  no_space P = true -> no_space Q = true ->
  last_only (lineCheck_of p w)
    (Q +:+ " " +:+ render_line [P] (lineCheck_of p w)) = true ->
  exports (snd (share.Add Q (snd (share.Add P w))))
    = inl (existing w +:+ newline +:+
           render_line (share.goodPaths w [Q; P]) (lineCheck_of p w)).
Proof.
  intros Pr W N NL TP TQ L.
  destruct (Add_step w P p Pr W) as [E1 S1].
  rewrite (Add_data_no_match w p P N) in E1.
  set (w1 := snd (share.Add P w)) in *.
  assert (Pr1 : provider w1 = inl p) by (rewrite (proj1 S1); exact Pr).
  assert (W1 : write_error w1 = None)
    by (destruct S1 as (_ & _ & _ & -> & _); exact W).
  destruct (Add_step w1 Q p Pr1 W1) as [E2 _]. rewrite E2. f_equal.
  unfold Add_data. rewrite (lineCheck_of_env w w1 p S1).
  unfold existing at 1. rewrite E1.
  destruct S1 as (_ & _ & _ & _ & St & _).
  rewrite (Add_lines_ext w Q _ w1 _ St).
  unfold newline in *. rewrite Split_char_app.
  rewrite (Split_no_sep _ _ (P +:+ " " +:+ lineCheck_of p w))
    by (apply Contains_false, NL).
  change (P +:+ " " +:+ lineCheck_of p w) with (render_line [P] (lineCheck_of p w)).
  rewrite (Add_rendered_line w Q (lineCheck_of p w) _ [P] [] N TQ) by
    (simpl; rewrite ?TP; reflexivity || exact L).
  rewrite Join_snoc by apply Split_nonempty. rewrite Join_Split.
  rewrite <- goodPaths_cons. reflexivity.
Qed.

Lemma Add_twice_one_line_witness :
  exports (snd (share.Add "/srv/lib"
                  (snd (share.Add "/srv/app"
                          (world_of (inl "/x 10.0.2.9 -alldirs -mapall=501:20")
                             ["/srv/lib"; "/srv/app"] 20)))))
  = inl ("/x 10.0.2.9 -alldirs -mapall=501:20" +:+ newline +:+
         render_line ["/srv/lib"; "/srv/app"] rule_501_20).
Proof.
  refine (Add_twice_one_line
            (world_of (inl "/x 10.0.2.9 -alldirs -mapall=501:20")
               ["/srv/lib"; "/srv/app"] 20)
            "/srv/app" "/srv/lib" (mkProvider "10.0.2.2")
            eq_refl eq_refl _ eq_refl eq_refl eq_refl eq_refl).
  intros l H. apply list_elem_of_singleton in H. subst l. reflexivity.
Defined.

End AddTwice.

(** * Package [file]: the entries of [Tar] *)

Section TarNames.

Lemma Delete_loop_fuel (c : ascii) (old' : string) (n m : nat) (s : string) :
  (String.length s <= n)%nat -> (String.length s <= m)%nat ->
  strings.Delete_loop n s (String c old') = strings.Delete_loop m s (String c old').
Proof.
  revert m s. induction n as [|n IH]; intros m s Hn Hm.
  - destruct s; [|simpl in Hn; lia]. destruct m; reflexivity.
  - destruct m as [|m].
    + destruct s; [reflexivity|simpl in Hm; lia].
    + simpl. destruct (strings.Cut s (String c old')) as [[b a]|] eqn:C;
        [|reflexivity].
      apply Cut_length in C. simpl in C. f_equal. apply IH; lia.
Qed.

Lemma Delete_all_unfold (c : ascii) (old' : string) (s : string) :
  strings.Delete_all s (String c old') =
  match strings.Cut s (String c old') with
  | Some (before, after) => before +:+ strings.Delete_all after (String c old')
  | None => s
  end.
Proof.
  unfold strings.Delete_all. destruct s as [|d s]; [reflexivity|].
  change (String.length (String d s)) with (S (String.length s)).
  change (strings.Delete_loop (S (String.length s)) (String d s) (String c old'))
    with (match strings.Cut (String d s) (String c old') with
          | Some (before, after) =>
              before +:+ strings.Delete_loop (String.length s) after (String c old')
          | None => String d s
          end).
  destruct (strings.Cut (String d s) (String c old')) as [[b a]|] eqn:C;
    [|reflexivity].
  apply Cut_length in C. simpl in C. f_equal. apply Delete_loop_fuel; lia.
Qed.

Lemma Delete_all_absent (s old : string) :
  strings.Contains s old = false -> strings.Delete_all s old = s.
Proof.
  destruct old as [|c old']; [reflexivity|].
  unfold strings.Contains. rewrite Delete_all_unfold.
  destruct (strings.Cut s (String c old')); [discriminate|reflexivity].
Qed.

Lemma Delete_all_prefix (old tail : string) :
  old <> "" -> strings.Delete_all (old +:+ tail) old = strings.Delete_all tail old.
Proof.
  destruct old as [|c old']; [contradiction|]. intros _.
  rewrite Delete_all_unfold, Cut_prefix. reflexivity.
Qed.

Lemma HasPrefix_app_long (s t sub : string) :
  (String.length sub <= String.length s)%nat ->
  strings.HasPrefix (s +:+ t) sub = strings.HasPrefix s sub.
Proof.
  revert s. induction sub as [|c sub IH]; intros s L; [reflexivity|].
  destruct s as [|d s]; [simpl in L; lia|].
  rewrite string_app_cons, !HasPrefix_cons. simpl in L.
  destruct (Ascii.eqb d c); [apply IH; lia|reflexivity].
Qed.

Lemma drop_bytes_app_long (n : nat) (s t : string) :
  (n <= String.length s)%nat ->
  strings.drop_bytes n (s +:+ t) = strings.drop_bytes n s +:+ t.
Proof.
  revert s. induction n as [|n IH]; intros s L; [reflexivity|].
  destruct s as [|d s]; [simpl in L; lia|].
  rewrite string_app_cons. simpl. apply IH. simpl in L. lia.
Qed.

(** The leftmost occurrence stays the leftmost when text is added at the
    end. *)
Lemma Cut_app_r (s t sub before after : string) :
  strings.Cut s sub = Some (before, after) ->
  strings.Cut (s +:+ t) sub = Some (before, after +:+ t).
Proof.
  revert before. induction s as [|c s IH]; intros b C.
  - simpl in C. destruct (strings.HasPrefix "" sub) eqn:H; [|discriminate].
    destruct sub; [|discriminate]. injection C as <- <-.
    rewrite !string_app_nil_l. destruct t; reflexivity.
  - pose proof (Cut_length _ _ _ _ C) as Len.
    rewrite Cut_cons in C. rewrite string_app_cons, Cut_cons, <- string_app_cons.
    rewrite HasPrefix_app_long by lia.
    destruct (strings.HasPrefix (String c s) sub) eqn:H.
    + injection C as <- <-. rewrite drop_bytes_app_long by lia. reflexivity.
    + destruct (strings.Cut s sub) as [[b0 a0]|] eqn:C0; [|discriminate].
      injection C as <- <-. rewrite (IH b0 eq_refl). reflexivity.
Qed.

(** X14. The name of an archive entry is the path with every occurrence of
    [src] taken out and one leading slash dropped.  So below [src] it is
    the path relative to [src] when [src] does not occur again in it; the
    entry of [src] itself (a [Tar] of one file) has the empty name; and
    when [src] occurs again further down, that occurrence is cut out of
    the name as well. *)
Theorem Tar_entry_name (src : string) :
  src <> "" ->
  (forall tail : string,
     file.entry_name (src +:+ tail) src
       = strings.TrimPrefix (strings.Delete_all tail src) "/") /\
  (forall rel : string,
     strings.Contains ("/" +:+ rel) src = false ->
     file.entry_name (src +:+ "/" +:+ rel) src = rel) /\
  file.entry_name src src = "" /\
  (forall a b : string,
     last_only src ("/" +:+ a +:+ src) = true ->
     file.entry_name (src +:+ "/" +:+ a +:+ src +:+ b) src
       = a +:+ strings.Delete_all b src).
Proof.
  intros NE. unfold file.entry_name.
  assert (G : forall tail : string,
            strings.Delete_all (src +:+ tail) src = strings.Delete_all tail src)
    by (intros tail; apply Delete_all_prefix, NE).
  split; [intros tail; rewrite G; reflexivity|].
  split; [|split].
  - intros rel A. rewrite G, (Delete_all_absent _ _ A). reflexivity.
  - rewrite <- (string_app_nil_r src) at 1. rewrite G.
    destruct src; [contradiction|reflexivity].
  - intros a b L. rewrite G.
    destruct (last_only_spec _ _ L) as (x & E & C & _).
    rewrite <- !string_app_assoc in E. apply string_app_inv_tail in E. subst x.
    destruct src as [|c src']; [contradiction|].
    rewrite Delete_all_unfold.
    replace ("/" +:+ a +:+ String c src' +:+ b)
      with (("/" +:+ a +:+ String c src') +:+ b)
      by (rewrite !string_app_assoc; reflexivity).
    rewrite <- !string_app_assoc in C. rewrite !string_app_assoc in C.
    rewrite (Cut_app_r _ b _ _ _ C), string_app_nil_l.
    rewrite !string_app_assoc. reflexivity.
Qed.

Lemma Tar_entry_name_witness :
  file.entry_name ("app" +:+ "/" +:+ "lib/" +:+ "app" +:+ "/x.go") "app"
    = "lib/" +:+ strings.Delete_all "/x.go" "app".
Proof.
  refine (proj2 (proj2 (proj2 (Tar_entry_name "app" _))) "lib/" "/x.go" eq_refl).
  discriminate.
Defined.

End TarNames.

Section TarEntries.

Variable src : string.
Variable w : file.World.

Lemma same_files_refl : same_files w w.
Proof. repeat split. Qed.

Lemma walkFn_same_files (v : file.Visit) (w0 : file.World) :
  same_files w w0 -> same_files w (snd (file.walkFn src v w0)).
Proof.
  intros S. unfold file.walkFn.
  destruct (file.v_err v); [exact S|].
  destruct (file.IsRegular (file.v_info v)); [|exact S].
  destruct (file.header_result w0 _ _); [exact S|].
  destruct (file.open_result w0 _); [|exact S].
  destruct (file.copy_result w0 _ _); exact S.
Qed.

(** A visit that goes well: the walk function returns no error and adds
    what [passes] says. *)
Lemma walkFn_passes (v : file.Visit) (w0 : file.World) (evs : list file.Event) :
  same_files w w0 -> passes src w (file.archive w0) v evs ->
  fst (file.walkFn src v w0) = None /\
  file.archive (snd (file.walkFn src v w0)) = file.archive w0 ++ evs.
Proof.
  intros (_ & H & O & C) (E & [(R & ->)|(R & Hd & data & Op & Cp & ->)]);
    unfold file.walkFn; rewrite E, R.
  - rewrite app_nil_r. split; reflexivity.
  - fold (header_of src v). rewrite H, Hd, O, Op. simpl file.archive.
    rewrite C, Cp. simpl. rewrite <- app_assoc. split; reflexivity.
Qed.

(** A visit that fails: the walk function returns the error and adds what
    [fails_at] says. *)
Lemma walkFn_fails (v : file.Visit) (w0 : file.World) (e : string)
    (evs : list file.Event) :
  same_files w w0 -> fails_at src w (file.archive w0) v e evs ->
  fst (file.walkFn src v w0) = Some e /\
  file.archive (snd (file.walkFn src v w0)) = file.archive w0 ++ evs.
Proof.
  intros (_ & H & O & C) F. unfold file.walkFn.
  destruct F as [(E & ->)|(E & R & F)]; rewrite E.
  { rewrite app_nil_r. split; reflexivity. }
  rewrite R. fold (header_of src v). rewrite H, O.
  destruct F as [(Hd & ->)|[(Hd & Op & ->)|(Hd & data & Op & Cp & ->)]];
    rewrite Hd; [split; reflexivity| |].
  - rewrite Op. split; reflexivity.
  - rewrite Op. simpl file.archive. rewrite C, Cp. simpl.
    rewrite <- app_assoc. split; reflexivity.
Qed.

(** Every visit goes well or fails. *)
Lemma walkFn_cases (v : file.Visit) (w0 : file.World) :
  same_files w w0 ->
  match fst (file.walkFn src v w0) with
  | None => exists evs, passes src w (file.archive w0) v evs
  | Some e => exists evs, fails_at src w (file.archive w0) v e evs
  end.
Proof.
  intros (_ & H & O & C). unfold file.walkFn, passes, fails_at.
  destruct (file.v_err v) as [e|]; [simpl; eauto|].
  destruct (file.IsRegular (file.v_info v)); [|simpl; eauto].
  fold (header_of src v). rewrite H, O. simpl file.archive. rewrite C.
  destruct (file.header_result w _ _) as [e|] eqn:Hd; [simpl; eauto 10|].
  destruct (file.open_result w _) as [data|e] eqn:Op; [|simpl; eauto 10].
  destruct (file.copy_result w _ _) as [e|] eqn:Cp; simpl; eauto 12.
Qed.

Lemma Walk_cons (v : file.Visit) (vs : list file.Visit) (w0 : file.World) :
  file.Walk (file.walkFn src) (v :: vs) w0 =
  match fst (file.walkFn src v w0) with
  | Some err => (Some err, snd (file.walkFn src v w0))
  | None => file.Walk (file.walkFn src) vs (snd (file.walkFn src v w0))
  end.
Proof. simpl. destruct (file.walkFn src v w0) as [[e|] w1]; reflexivity. Qed.

Lemma Walk_all_pass (tr : list file.Event) (vs : list file.Visit)
    (done : list file.Event) :
  all_pass src w tr vs done ->
  forall w0 : file.World, same_files w w0 -> file.archive w0 = tr ->
  fst (file.Walk (file.walkFn src) vs w0) = None /\
  file.archive (snd (file.Walk (file.walkFn src) vs w0)) = tr ++ done /\
  same_files w (snd (file.Walk (file.walkFn src) vs w0)).
Proof.
  induction 1 as [tr|tr v vs e1 es P A IH]; intros w0 S <-.
  - simpl. rewrite app_nil_r. repeat split; apply S.
  - destruct (walkFn_passes v w0 e1 S P) as [R Ar].
    rewrite Walk_cons, R.
    destruct (IH (snd (file.walkFn src v w0)) (walkFn_same_files v w0 S) Ar)
      as (R' & A' & S').
    rewrite A', <- app_assoc. repeat split; try assumption; apply S'.
Qed.

Lemma Walk_first_fail (pre : list file.Visit) (v : file.Visit)
    (post : list file.Visit) (done evs : list file.Event) (e : string) :
  forall w0 : file.World, same_files w w0 ->
  all_pass src w (file.archive w0) pre done ->
  fails_at src w (file.archive w0 ++ done) v e evs ->
  fst (file.Walk (file.walkFn src) (pre ++ v :: post) w0) = Some e /\
  file.archive (snd (file.Walk (file.walkFn src) (pre ++ v :: post) w0))
    = file.archive w0 ++ done ++ evs.
Proof.
  intros w0 S A. remember (file.archive w0) as tr eqn:T. revert w0 S T.
  induction A as [tr|tr v0 vs e1 es P A IH]; intros w0 S -> F.
  - rewrite app_nil_r in F. destruct (walkFn_fails v w0 e evs S F) as [R Ar].
    simpl app. rewrite Walk_cons, R. simpl. split; [reflexivity|exact Ar].
  - destruct (walkFn_passes v0 w0 e1 S P) as [R Ar].
    rewrite <- app_comm_cons, Walk_cons, R.
    rewrite app_assoc in F.
    destruct (IH (snd (file.walkFn src v0 w0)) (walkFn_same_files v0 w0 S)
                (eq_sym Ar) F) as [R' A'].
    rewrite R', A', <- !app_assoc. split; reflexivity.
Qed.

Lemma Walk_decompose (vs : list file.Visit) :
  forall w0 : file.World, same_files w w0 ->
  match fst (file.Walk (file.walkFn src) vs w0) with
  | None => exists done, all_pass src w (file.archive w0) vs done
  | Some e =>
      exists (pre : list file.Visit) (v : file.Visit) (post : list file.Visit)
             (done evs : list file.Event),
        vs = pre ++ v :: post /\
        all_pass src w (file.archive w0) pre done /\
        fails_at src w (file.archive w0 ++ done) v e evs
  end.
Proof.
  induction vs as [|v vs IH]; intros w0 S.
  { simpl. exists []. constructor. }
  pose proof (walkFn_cases v w0 S) as Cs. rewrite Walk_cons.
  destruct (fst (file.walkFn src v w0)) as [e|] eqn:R.
  - destruct Cs as (evs & F). simpl.
    exists [], v, vs, [], evs. rewrite app_nil_r.
    split; [reflexivity|]. split; [constructor|exact F].
  - destruct Cs as (e1 & P).
    destruct (walkFn_passes v w0 e1 S P) as [_ Ar].
    specialize (IH (snd (file.walkFn src v w0)) (walkFn_same_files v w0 S)).
    rewrite Ar in IH.
    destruct (fst (file.Walk (file.walkFn src) vs _)) as [e|].
    + destruct IH as (pre & v' & post & done & evs & -> & A & F).
      exists (v :: pre), v', post, (e1 ++ done), evs.
      split; [reflexivity|]. split; [constructor; assumption|].
      rewrite app_assoc. exact F.
    + destruct IH as (done & A). exists (e1 ++ done).
      constructor; assumption.
Qed.

Lemma Tar_eq :
  file.Tar src w =
  (fst (file.Walk (file.walkFn src) (file.visits w) w),
   file.record (file.EvClose "gzip")
     (file.record (file.EvClose "tar")
        (snd (file.Walk (file.walkFn src) (file.visits w) w)))).
Proof.
  unfold file.Tar.
  destruct (file.Walk (file.walkFn src) (file.visits w) w); reflexivity.
Qed.

Lemma Tar_archive :
  file.archive (snd (file.Tar src w))
    = file.archive (snd (file.Walk (file.walkFn src) (file.visits w) w)) ++ closes.
Proof. rewrite Tar_eq. simpl. rewrite <- app_assoc. reflexivity. Qed.

(** X15. [Tar] returns no error exactly when every visit of the walk goes
    well: none carries an error and, for each regular file, the header is
    written, the file is opened and its bytes are copied without error.
    What is done to the archive is then, visit after visit, nothing for
    what is not a regular file and, for a regular file, its header (named
    by [entry_name], with the mode and the size of the file info) followed
    by the bytes of the file, and at the end the close of the tar writer
    and the close of the gzip writer. *)
Theorem Tar_entries :
  (fst (file.Tar src w) = None <->
   exists done : list file.Event,
     all_pass src w (file.archive w) (file.visits w) done) /\
  (forall done : list file.Event,
     all_pass src w (file.archive w) (file.visits w) done ->
     file.archive (snd (file.Tar src w)) = file.archive w ++ done ++ closes).
Proof.
  split; [split|].
  - intros R. rewrite Tar_eq in R. simpl in R.
    pose proof (Walk_decompose (file.visits w) w same_files_refl) as D.
    rewrite R in D. exact D.
  - intros (done & A). rewrite Tar_eq. simpl.
    apply (Walk_all_pass _ _ _ A w same_files_refl eq_refl).
  - intros done A. rewrite Tar_archive.
    destruct (Walk_all_pass _ _ _ A w same_files_refl eq_refl) as (_ & -> & _).
    rewrite <- app_assoc. reflexivity.
Qed.

(** X16. When [Tar] returns an error, it is the error of the first visit
    that fails: the visits before it all went well and are in the archive
    in full, the failing visit fails with that error (the error it
    carries, or for a regular file the error of writing its header, of
    opening it, or of copying its bytes) and leaves at most its header and
    its bytes, nothing is done for the visits after it, and the two writers
    are closed all the same.  And a walk whose first failing visit fails
    with an error makes [Tar] return that error. *)
Theorem Tar_first_error :
  (forall (pre : list file.Visit) (v : file.Visit) (post : list file.Visit)
          (done evs : list file.Event) (e : string),
     file.visits w = pre ++ v :: post ->
     all_pass src w (file.archive w) pre done ->
     fails_at src w (file.archive w ++ done) v e evs ->
     fst (file.Tar src w) = Some e /\
     file.archive (snd (file.Tar src w))
       = file.archive w ++ done ++ evs ++ closes) /\
  (forall e : string,
     fst (file.Tar src w) = Some e ->
     exists (pre : list file.Visit) (v : file.Visit) (post : list file.Visit)
            (done evs : list file.Event),
       file.visits w = pre ++ v :: post /\
       all_pass src w (file.archive w) pre done /\
       fails_at src w (file.archive w ++ done) v e evs /\
       file.archive (snd (file.Tar src w))
         = file.archive w ++ done ++ evs ++ closes).
Proof.
  split.
  - intros pre v post done evs e V A F. rewrite Tar_archive, Tar_eq, V. simpl fst.
    destruct (Walk_first_fail pre v post done evs e w same_files_refl A F)
      as [R Ar].
    rewrite R, Ar, <- !app_assoc. split; reflexivity.
  - intros e R. rewrite Tar_eq in R. simpl in R.
    pose proof (Walk_decompose (file.visits w) w same_files_refl) as D.
    rewrite R in D. destruct D as (pre & v & post & done & evs & V & A & F).
    exists pre, v, post, done, evs.
    split; [exact V|]. split; [exact A|]. split; [exact F|].
    rewrite Tar_archive, V.
    destruct (Walk_first_fail pre v post done evs e w same_files_refl A F)
      as [_ Ar].
    rewrite Ar, <- !app_assoc. reflexivity.
Qed.

End TarEntries.

Lemma tar_world_ok_passes :
  all_pass "app" tar_world_ok [] (file.visits tar_world_ok)
    ([] ++ [file.EvWriteHeader (file.mkHeader "main.go" 420 5);
            file.EvCopy "app/main.go" "hello"] ++ []).
Proof.
  constructor.
  - split; [reflexivity|]. left. split; reflexivity.
  - constructor; [|constructor].
    split; [reflexivity|]. right. split; [reflexivity|].
    split; [reflexivity|]. exists "hello". repeat split.
Defined.

Lemma Tar_entries_witness :
  fst (file.Tar "app" tar_world_ok) = None /\
  file.archive (snd (file.Tar "app" tar_world_ok))
    = [file.EvWriteHeader (file.mkHeader "main.go" 420 5);
       file.EvCopy "app/main.go" "hello";
       file.EvClose "tar"; file.EvClose "gzip"].
Proof.
  split.
  - exact (proj2 (proj1 (Tar_entries "app" tar_world_ok))
             (ex_intro _ _ tar_world_ok_passes)).
  - exact (proj2 (Tar_entries "app" tar_world_ok) _ tar_world_ok_passes).
Defined.

Lemma Tar_first_error_witness :
  fst (file.Tar "app" tar_world)
    = Some "open app/secret: permission denied" /\
  file.archive (snd (file.Tar "app" tar_world))
    = [file.EvWriteHeader (file.mkHeader "main.go" 420 5);
       file.EvCopy "app/main.go" "hello";
       file.EvWriteHeader (file.mkHeader "secret" 384 7);
       file.EvClose "tar"; file.EvClose "gzip"].
Proof.
  refine (proj1 (Tar_first_error "app" tar_world)
            [file.mkVisit "app" (file.mkFileInfo false 2147484141 96) None;
             file.mkVisit "app/main.go" (file.mkFileInfo true 420 5) None]
            (file.mkVisit "app/secret" (file.mkFileInfo true 384 7) None) []
            ([] ++ [file.EvWriteHeader (file.mkHeader "main.go" 420 5);
                    file.EvCopy "app/main.go" "hello"] ++ [])
            [file.EvWriteHeader (file.mkHeader "secret" 384 7)]
            "open app/secret: permission denied" eq_refl _ _).
  - constructor.
    + split; [reflexivity|]. left. split; reflexivity.
    + constructor; [|constructor].
      split; [reflexivity|]. right. split; [reflexivity|].
      split; [reflexivity|]. exists "hello". repeat split.
  - right. split; [reflexivity|]. split; [reflexivity|].
    right. left. repeat split.
Defined.

(** * Package [commands] *)

Section Commands.

(** X17. [deployFn] with more than one argument only prints the usage text
    with the number of arguments: [Meta] is untouched and no processor is
    run.  With at most one argument it sets [Meta["app"]] to the argument
    (["default"] without one) and [Meta["message"]] to the message flag,
    leaves the other keys as they are, runs the deploy processor once on
    that [Meta] and hands its result to [print.OutputCommandErr]. *)
Theorem deployFn_arguments (args : list string) (w : commands.World) :
  let w' := commands.deployFn args w in
  ((1 < length args)%nat ->
   commands.Meta w' = commands.Meta w /\
   commands.log w'
     = commands.log w ++ [commands.EvPrint (commands.wrong_number (length args))] /\
   processor_runs (commands.log w') = processor_runs (commands.log w)) /\
  ((length args <= 1)%nat ->
   let a := default "default" (head args) in
   commands.Meta w' !! "app" = Some a /\
   commands.Meta w' !! "message" = Some (commands.message w) /\
   (forall k : string, k <> "app" -> k <> "message" ->
      commands.Meta w' !! k = commands.Meta w !! k) /\
   commands.log w'
     = commands.log w ++
       [commands.EvRun "deploy" (commands.Meta w');
        commands.EvOutputCommandErr
          (commands.run_result w "deploy" (commands.Meta w'))]).
Proof.
  intros w'. subst w'. split.
  - intros L. destruct args as [|a [|b args]]; simpl in L; try lia.
    simpl. split; [reflexivity|]. split; [reflexivity|].
    unfold processor_runs. rewrite flat_map_app, app_nil_r. reflexivity.
  - intros L. destruct args as [|a [|b args]]; simpl in L; try lia; simpl.
    + split; [rewrite lookup_insert_ne by done; apply lookup_insert_eq|].
      split; [apply lookup_insert_eq|]. split.
      * intros k Ka Km. rewrite !lookup_insert_ne by done. reflexivity.
      * rewrite <- app_assoc. reflexivity.
    + split; [rewrite lookup_insert_ne by done; apply lookup_insert_eq|].
      split; [apply lookup_insert_eq|]. split.
      * intros k Ka Km. rewrite !lookup_insert_ne by done. reflexivity.
      * rewrite <- app_assoc. reflexivity.
Qed.

(** X18. The tunnel and console commands with a number of arguments other
    than one only print their message: [Meta] is untouched and no
    processor is run.  With one argument they set [Meta["alias"]] to the
    app flag and [Meta["container"]] to the argument and run their
    processor once; the tunnel command sets [Meta["port"]] to the port flag
    as well, the console command leaves it as it is. *)
Theorem tunnel_console_arguments (args : list string) (w : commands.World) :
  (length args <> 1%nat ->
   commands.Meta (commands.tunnelRun args w) = commands.Meta w /\
   commands.Meta (commands.consoleRun args w) = commands.Meta w /\
   processor_runs (commands.log (commands.tunnelRun args w))
     = processor_runs (commands.log w) /\
   processor_runs (commands.log (commands.consoleRun args w))
     = processor_runs (commands.log w)) /\
  (forall a : string, args = [a] ->
   let t := commands.Meta (commands.tunnelRun args w) in
   let c := commands.Meta (commands.consoleRun args w) in
   t !! "alias" = Some (commands.app w) /\ t !! "container" = Some a /\
   t !! "port" = Some (commands.port w) /\
   c !! "alias" = Some (commands.app w) /\ c !! "container" = Some a /\
   c !! "port" = commands.Meta w !! "port" /\
   (forall k : string, k <> "alias" -> k <> "container" -> k <> "port" ->
      t !! k = commands.Meta w !! k /\ c !! k = commands.Meta w !! k) /\
   processor_runs (commands.log (commands.tunnelRun args w))
     = processor_runs (commands.log w) ++ ["tunnel"] /\
   processor_runs (commands.log (commands.consoleRun args w))
     = processor_runs (commands.log w) ++ ["console"]).
Proof.
  split.
  - intros L. unfold processor_runs.
    destruct args as [|a [|b args]]; simpl in L; try lia; simpl;
      rewrite !flat_map_app, !app_nil_r; repeat split.
  - intros a ->. simpl.
    assert (R : forall (l : list commands.Event) (n : string)
                       (m : gmap string string) (e : error),
              processor_runs ((l ++ [commands.EvRun n m]) ++ [commands.EvHandleError e])
                = processor_runs l ++ [n]).
    { intros l n m e. unfold processor_runs.
      rewrite !flat_map_app. simpl. rewrite app_nil_r. reflexivity. }
    rewrite !R.
    repeat split; try reflexivity; intros; simplify_map_eq; reflexivity.
Qed.

Lemma tunnel_console_arguments_witness :
  commands.Meta
    (commands.consoleRun ["web1"]
       (commands.mkWorld {["port" := "8080"]} "" "myapp" "9000"
          false false false false "" true "info" "/home/me/.nanobox"
          (fun _ _ => None) (fun _ _ => None) false []))
    !! "port"
  = Some "8080".
Proof.
  exact (proj1 (proj2 (proj2 (proj2 (proj2 (proj2
           (proj2 (tunnel_console_arguments ["web1"]
                     (commands.mkWorld {["port" := "8080"]} "" "myapp" "9000"
                        false false false false "" true "info"
                        "/home/me/.nanobox" (fun _ _ => None)
                        (fun _ _ => None) false []))
              "web1" eq_refl))))))).
Defined.

End Commands.

Section PreRun.

Ltac run_prerun :=
  cbv beta iota zeta delta
    [commands.PersistentPreRun commands.emit commands.set_display
     commands.set_append_logger commands.lumber_Level commands.and_then
     commands.final commands.panics nil_logger
     commands.Meta commands.message commands.app commands.port
     commands.debugMode commands.displayDebugMode commands.displayTraceMode
     commands.internalCommand commands.endpoint commands.Summary
     commands.Level commands.GlobalDir commands.run_result
     commands.append_logger_result commands.logger_nil commands.log
     negb orb andb].

(** X19. The persistent pre-run of the root command reports the command
    path without its first ["nanobox "] (a subcommand is reported by its
    own name, the bare root command as ["nanobox"]) and checks for updates
    first.  It always sets the registry key ["debug"], sets ["internal"]
    only for an internal command and ["endpoint"] only for a non-empty
    endpoint, in this order.  An internal command installs the append
    logger on [nanobox.log] of the global directory as default logger, nil
    if it could not be made.  The function panics exactly when the default
    logger it leaves is nil and the verbose or the trace flag is set; then
    no logger level is set, and the display level and the summary stay as
    they were.  When it returns, the logger levels set are [DEBUG] with the
    verbose flag, then [TRACE] with the trace flag; the display level ends
    as ["trace"] with the trace flag, whatever the verbose flag, as
    ["debug"] with the verbose flag alone, and stays as it was without
    either; the summary is turned off by either flag.  [Meta] is not
    touched. *)
Theorem PersistentPreRun_settings (commandPath : string) (w : commands.World) :
  let o := commands.PersistentPreRun commandPath w in
  let w' := commands.final o in
  commands.panics o
    = nil_logger w
      && (commands.displayDebugMode w || commands.displayTraceMode w) /\
  commands.logger_nil w' = nil_logger w /\
  commands.Meta w' = commands.Meta w /\
  commands.Level w'
    = (if commands.panics o then commands.Level w
       else if commands.displayTraceMode w then "trace"
       else if commands.displayDebugMode w then "debug"
       else commands.Level w) /\
  commands.Summary w'
    = (if commands.panics o then commands.Summary w
       else if commands.displayTraceMode w || commands.displayDebugMode w
       then false else commands.Summary w) /\
  (exists new : list commands.Event,
     commands.log w'
       = commands.log w ++
         commands.EvReport (strings.Replace1 commandPath "nanobox " "")
         :: commands.EvUpdateCheck :: new /\
     registry_sets new
       = (if commands.internalCommand w
          then [("internal", commands.VBool true)] else []) ++
         (if String.eqb (commands.endpoint w) "" then []
          else [("endpoint", commands.VString (commands.endpoint w))]) ++
         [("debug", commands.VBool (commands.debugMode w))] /\
     lumber_levels new
       = (if commands.panics o then []
          else (if commands.displayDebugMode w then ["DEBUG"] else []) ++
               (if commands.displayTraceMode w then ["TRACE"] else []))) /\
  (forall sub : string,
     strings.Replace1 ("nanobox " +:+ sub) "nanobox " "" = sub) /\
  strings.Replace1 "nanobox" "nanobox " "" = "nanobox".
Proof.
  intros o w'. subst w' o.
  destruct w as [m ms ap po dm dd dt ic ep su le gd rr ar ln lg].
  split; [|split; [|split; [|split; [|split; [|split; [|split]]]]]].
  1-5: destruct (String.eqb ep "") eqn:E, (ar gd "nanobox.log") eqn:A,
                ln, ic, dd, dt;
       run_prerun; rewrite ?E, ?A; run_prerun; rewrite ?A; reflexivity.
  - destruct (String.eqb ep "") eqn:E, (ar gd "nanobox.log") eqn:A,
             ln, ic, dd, dt;
      run_prerun; rewrite ?E, ?A; run_prerun; rewrite ?A;
      eexists;
      (split; [rewrite <- ?app_assoc; reflexivity|split; reflexivity]).
  - intros sub. rewrite Replace1_prefix. reflexivity.
  - reflexivity.
Qed.

(** An internal command run with the verbose flag where the log file
    cannot be opened: the pre-run panics, after the registry was set and
    before the display level changed. *)
Lemma PersistentPreRun_settings_witness :
  commands.panics
    (commands.PersistentPreRun "nanobox deploy" world_no_log_file) = true /\
  commands.Level
    (commands.final
       (commands.PersistentPreRun "nanobox deploy" world_no_log_file))
  = "info" /\
  commands.Summary
    (commands.final
       (commands.PersistentPreRun "nanobox deploy" world_no_log_file))
  = true.
Proof.
  pose proof (PersistentPreRun_settings "nanobox deploy" world_no_log_file)
    as (P & _ & _ & L & S & _).
  split; [exact P|split; [exact L|exact S]].
Defined.

End PreRun.
